(** * Passport photo resizer: the cover-fit resize pipeline

    A shallow embedding of the two React components of the repository,
    [src/App.jsx] (the minimal variant, module [Minimal]) and its fuller
    sibling with a quality slider and a background picker (module [Full]).

    JavaScript numbers are IEEE-754 binary64 values; they are modelled by
    Rocq's primitive floats, whose operations are the correctly rounded
    binary64 ones.  The arithmetic of the crop computation is written once
    per variant over an interface [JsArith], so that the very same
    expressions can also be read in exact rational arithmetic ([Q]): the
    binary64 reading is what the program computes, the exact reading is what
    it computes "up to floating-point rounding".

    The event handlers [handleFiles] and [doResize] are functions from the
    session state and the browser's answers to the new state and the list of
    calls made on the browser, in program order. The drop and paste glue
    around [handleFiles], the object-URL cleanup effect and the resize button
    of the markup follow the handlers; the rest of the JSX markup and its
    styles are not part of the embedding. *)

From Stdlib Require Import ZArith QArith Qpower Qminmax Lqa Lia Bool List String Ascii.
From Stdlib Require Import DecimalString.
From Stdlib Require Import PrimFloat SpecFloat FloatOps FloatAxioms.
Import ListNotations.

Set Implicit Arguments.

(** ** Number systems *)

(** The operations the crop computation uses: integer literals and integer
    bitmap dimensions, [/], [*], [-], [Math.max] and [>]. *)
Class JsArith (num : Type) := {
  jlit : Z -> num;
  jdiv : num -> num -> num;
  jmul : num -> num -> num;
  jsub : num -> num -> num;
  jmax : num -> num -> num;
  jgt : num -> num -> bool
}.

Module B64.

(** The binary64 value nearest to an integer (ties to even). Integers of
    magnitude at most 2^53 are represented exactly. *)
Definition of_Z (z : Z) : float :=
  SF2Prim (binary_normalize prec emax z 0 false).

(** The binary64 value nearest to [+/- n / d]. *)
Definition of_ratio (neg : bool) (n d : positive) : float :=
  SF2Prim (SFdiv prec emax (S754_finite neg n 0) (S754_finite false d 0)).

(** [Math.max] on two arguments: NaN if either is NaN, and [+0] is larger
    than [-0]. *)
Definition Math_max (a b : float) : float :=
  if (is_nan a || is_nan b)%bool then nan
  else if PrimFloat.ltb a b then b
  else if PrimFloat.ltb b a then a
  else if get_sign a then b else a.

(** The relational operator [a > b]. *)
Definition gt (a b : float) : bool := PrimFloat.ltb b a.

(** Strict equality [a === b] on numbers. *)
Definition strict_eq (a b : float) : bool := PrimFloat.eqb a b.

(** [ToBoolean] on a number: false exactly for NaN, [+0] and [-0]. *)
Definition truthy (x : float) : bool :=
  negb (is_nan x || is_zero x)%bool.

(** The exact rational value of a finite binary64 number. *)
Definition to_Q (x : float) : option Q :=
  match Prim2SF x with
  | S754_zero _ => Some 0%Q
  | S754_finite s m e =>
      let v := match e with
               | Z0 => inject_Z (Zpos m)
               | Zpos p => inject_Z (Zpos m * 2 ^ Zpos p)
               | Zneg p => Qmake (Zpos m) (2 ^ p)
               end in
      Some (if s then Qopp v else v)
  | _ => None
  end.

(** [Number.isInteger]. *)
Definition isInteger (x : float) : bool :=
  match Prim2SF x with
  | S754_zero _ => true
  | S754_finite _ m e =>
      match e with
      | Zneg p => (Zpos m mod 2 ^ Zpos p =? 0)%Z
      | _ => true
      end
  | _ => false
  end.

(** The sizes from 2^-300 to 2^300: for these no operation of the crop
    computation overflows or leaves the range of the normal numbers. Every
    bitmap dimension and every canvas dimension is such a size. *)
Definition inRange (x : float) : bool :=
  (PrimFloat.leb 0x1p-300 x && PrimFloat.leb x 0x1p+300)%bool.

End B64.

(** The value [m * 2^e] of a mantissa and an exponent. *)
Definition F2Q (m e : Z) : Q := (inject_Z m * 2 ^ e)%Q.

(** [x] is a normal binary64 number: its sign is [s], its mantissa [m] has
    53 binary digits and its exponent is [e]. *)
Definition Fnormal (x : float) (s : bool) (m : positive) (e : Z) : Prop :=
  Prim2SF x = S754_finite s m e /\ Zpos (digits2_pos m) = 53%Z.

(** The largest relative error of one rounding to a normal number, 2^-52. *)
Definition eps : Q := 1 # 4503599627370496.

(** The rounding tolerance of the crop rectangle, relative to the source
    dimension: 2^-50. *)
Definition tolerance : Q := 1 # 1125899906842624.

#[export] Instance b64_arith : JsArith float := {
  jlit := B64.of_Z;
  jdiv := PrimFloat.div;
  jmul := PrimFloat.mul;
  jsub := PrimFloat.sub;
  jmax := B64.Math_max;
  jgt := B64.gt
}.

(** The same operations without rounding. *)
#[export] Instance exact_arith : JsArith Q := {
  jlit := inject_Z;
  jdiv := Qdiv;
  jmul := Qmult;
  jsub := Qminus;
  jmax := Qmax;
  jgt := fun a b => negb (Qle_bool a b)
}.

(** ** The crop rectangle *)

Record CropRect (num : Type) := mkCrop {
  sx : num;
  sy : num;
  sw : num;
  sh : num
}.

(** ** The JavaScript built-ins the components call

    Strings are sequences of code units below 256; the conversions follow
    ECMA-262 ([StringToNumber], [Number::toString] with radix 10,
    [String.prototype.startsWith], and the one regular expression the
    components use). *)

Module JS.

Open Scope char_scope.
Open Scope Z_scope.

Definition code (c : ascii) : Z := Z.of_N (N_of_ascii c).

(** [WhiteSpace] and [LineTerminator] code units: TAB, LF, VT, FF, CR, SP
    and NBSP. *)
Definition isWhiteSpace (c : ascii) : bool :=
  let n := code c in
  ((9 <=? n) && (n <=? 13) || (n =? 32) || (n =? 160))%bool.

Fixpoint trimStart (l : list ascii) : list ascii :=
  match l with
  | c :: l' => if isWhiteSpace c then trimStart l' else l
  | [] => []
  end.

Definition trim (l : list ascii) : list ascii :=
  rev (trimStart (rev (trimStart l))).

(** The value of a digit in a radix up to 16. *)
Definition digitValue (radix : Z) (c : ascii) : option Z :=
  let n := code c in
  let v := if (48 <=? n) && (n <=? 57) then n - 48
           else if (97 <=? n) && (n <=? 102) then n - 87
           else if (65 <=? n) && (n <=? 70) then n - 55
           else 16 in
  if v <? radix then Some v else None.

(** Leading digits of [l] in [radix]: their value, their number and the
    rest of the input. *)
Fixpoint digits (radix : Z) (acc : Z) (count : Z) (l : list ascii)
  : Z * Z * list ascii :=
  match l with
  | c :: l' =>
      match digitValue radix c with
      | Some v => digits radix (acc * radix + v) (count + 1) l'
      | None => (acc, count, l)
      end
  | [] => (acc, count, l)
  end.

(** The mathematical value of a [StringNumericLiteral], before rounding. *)
Inductive NumericValue :=
| NotNumeric
| Infinite (negative : bool)
| Decimal (negative : bool) (mantissa : Z) (exponent10 : Z).

(** [ExponentPart]: [e] or [E], an optional sign and at least one digit;
    nothing may follow. *)
Definition exponentPart (l : list ascii) : option Z :=
  match l with
  | [] => Some 0
  | c :: l1 =>
      if (code c =? 101) || (code c =? 69) then
        let '(neg, l2) :=
          match l1 with
          | "+" :: l2 => (false, l2)
          | "-" :: l2 => (true, l2)
          | _ => (false, l1)
          end in
        match digits 10 0 0 l2 with
        | (v, n, []) => if 0 <? n then Some (if neg then - v else v) else None
        | _ => None
        end
      else None
  end.

(** [StrUnsignedDecimalLiteral]. *)
Definition unsignedDecimal (neg : bool) (l : list ascii) : NumericValue :=
  match l with
  | ["I"; "n"; "f"; "i"; "n"; "i"; "t"; "y"] => Infinite neg
  | _ =>
      let '(ip, ni, l1) := digits 10 0 0 l in
      let '(m, nf, l2) :=
        match l1 with
        | "." :: l1' => let '(m, n, l2) := digits 10 ip ni l1' in (m, n - ni, l2)
        | _ => (ip, 0, l1)
        end in
      if ni + nf =? 0 then NotNumeric
      else match exponentPart l2 with
           | Some e => Decimal neg m (e - nf)
           | None => NotNumeric
           end
  end.

(** [NonDecimalIntegerLiteral] after its two-character prefix. *)
Definition nonDecimal (radix : Z) (l : list ascii) : NumericValue :=
  match digits radix 0 0 l with
  | (v, n, []) => if 0 <? n then Decimal false v 0 else NotNumeric
  | _ => NotNumeric
  end.

Definition numericValue (s : string) : NumericValue :=
  match trim (list_ascii_of_string s) with
  | [] => Decimal false 0 0
  | "0" :: c :: l =>
      if (code c =? 120) || (code c =? 88) then nonDecimal 16 l
      else if (code c =? 111) || (code c =? 79) then nonDecimal 8 l
      else if (code c =? 98) || (code c =? 66) then nonDecimal 2 l
      else unsignedDecimal false ("0" :: c :: l)
  | "+" :: l => unsignedDecimal false l
  | "-" :: l => unsignedDecimal true l
  | l => unsignedDecimal false l
  end.

(** Rounding of [+/- m * 10^e] to binary64. *)
Definition roundDecimal (neg : bool) (m e : Z) : float :=
  match m with
  | Zpos p =>
      match e with
      | Zneg k => B64.of_ratio neg p (10 ^ k)%positive
      | _ => B64.of_Z ((if neg then Zneg p else Zpos p) * 10 ^ e)
      end
  | _ => if neg then neg_zero else PrimFloat.zero
  end.

Definition StringToNumber (s : string) : float :=
  match numericValue s with
  | NotNumeric => nan
  | Infinite neg => if neg then neg_infinity else infinity
  | Decimal neg m e => roundDecimal neg m e
  end.

Close Scope char_scope.
Close Scope Z_scope.
Open Scope string_scope.
Open Scope Z_scope.

(** *** [Number::toString] *)

Definition decimalString (n : Z) : string :=
  DecimalString.NilZero.string_of_uint (N.to_uint (Z.to_N n)).

Fixpoint zeros (n : nat) : string :=
  match n with
  | O => EmptyString
  | S n' => String "0"%char (zeros n')
  end.

(** For [0 < a < b], the number of zeros right after the decimal point of
    [a / b]. *)
Fixpoint leadingZeros (fuel : nat) (a b : Z) (j : Z) : Z :=
  match fuel with
  | O => j
  | S fuel' => if b <=? a * 10 then j else leadingZeros fuel' (a * 10) b (j + 1)
  end.

(** The [n0] with [10^(n0-1) <= a/b < 10^n0], for positive [a] and [b]. *)
Definition magnitude (a b : Z) : Z :=
  if b <=? a then Z.of_nat (String.length (decimalString (a / b)))
  else - leadingZeros 400 a b 0.

(** The step of [Number::toString] that picks integers [n], [k] and [s]
    with [k >= 1], [10^(k-1) <= s < 10^k], [s * 10^(n-k)] rounding to [x]
    and [k] as small as possible; of two such [s] the one nearest to [x]
    (the even one on a tie).  [x] is positive and finite with exact value
    [a / b]. Only the two [k]-digit neighbours of [x] can qualify. *)
Fixpoint shortest (fuel : nat) (x : float) (a b n0 k : Z) : Z * Z * Z :=
  let p := n0 - k in
  let num := if 0 <=? p then a else a * 10 ^ (- p) in
  let den := if 0 <=? p then b * 10 ^ p else b in
  let lo := num / den in
  let hi := lo + 1 in
  let r := num mod den in
  let okLo := PrimFloat.eqb (roundDecimal false lo p) x in
  let okHi := PrimFloat.eqb (roundDecimal false hi p) x in
  let preferLo := ((2 * r <? den) || ((2 * r =? den) && Z.even lo))%bool in
  let pick (s : Z) := if s =? 10 ^ k then (n0 + 1, k, 10 ^ (k - 1)) else (n0, k, s) in
  if (okLo && (preferLo || negb okHi))%bool then pick lo
  else if okHi then pick hi
  else match fuel with
       | O => pick lo
       | S fuel' => shortest fuel' x a b n0 (k + 1)
       end.

Definition formatDigits (n k s : Z) : string :=
  let d := decimalString s in
  if ((-5 <=? n) && (n <=? 21))%bool then
    if k <=? n then d ++ zeros (Z.to_nat (n - k))
    else if 0 <? n then
      substring 0 (Z.to_nat n) d ++ "." ++ substring (Z.to_nat n) (Z.to_nat (k - n)) d
    else "0." ++ zeros (Z.to_nat (- n)) ++ d
  else
    let e := n - 1 in
    let es := (if e <? 0 then "-" else "+") ++ decimalString (Z.abs e) in
    if k =? 1 then d ++ "e" ++ es
    else substring 0 1 d ++ "." ++ substring 1 (Z.to_nat (k - 1)) d ++ "e" ++ es.

Definition Number_toString (x : float) : string :=
  match Prim2SF x with
  | S754_nan => "NaN"
  | S754_zero _ => "0"
  | S754_infinity s => if s then "-Infinity" else "Infinity"
  | S754_finite s m e =>
      let a := match e with Zpos _ => Zpos m * 2 ^ e | _ => Zpos m end in
      let b := match e with Zneg _ => 2 ^ (- e) | _ => 1 end in
      let '(n, k, d) := shortest 16 (abs x) a b (magnitude a b) 1 in
      (if s then "-" else "") ++ formatDigits n k d
  end.

(** *** Strings *)

(** [s.startsWith(p)]. *)
Definition startsWith (s p : string) : bool := String.prefix p s.

(** Case folding of the [i] flag, on the letters A-Z. *)
Definition toLower (c : ascii) : ascii :=
  let n := code c in
  if ((65 <=? n) && (n <=? 90))%bool then ascii_of_N (Z.to_N (n + 32)) else c.

Fixpoint lower (s : string) : string :=
  match s with
  | EmptyString => EmptyString
  | String c s' => String (toLower c) (lower s')
  end.

(** The alternatives of the pattern. *)
Definition extensions : list string :=
  ["jpg"; "jpeg"; "png"; "heic"; "webp"; "bmp"].

(** Whether the whole of [s] matches [\.(jpg|jpeg|png|heic|webp|bmp)$]
    under the [i] flag, the match starting at the first character: a dot,
    then one of the alternatives up to the end. *)
Definition matchesExtension (s : string) : bool :=
  match s with
  | String c e => (Ascii.eqb c "."%char && existsb (String.eqb (lower e)) extensions)%bool
  | EmptyString => false
  end.

(** [s.replace(/\.(jpg|jpeg|png|heic|webp|bmp)$/i, "")]: the leftmost
    position at which the pattern matches is replaced by the empty string;
    without a match the string is returned as it is. *)
Fixpoint stripExtension (s : string) : string :=
  if matchesExtension s then EmptyString
  else match s with
       | EmptyString => EmptyString
       | String c s' => String c (stripExtension s')
       end.

End JS.

(** ** Session state, platform and effects *)

Open Scope string_scope.

(** A [File] as the components read it: [name], [type] (the declared MIME
    type) and the identity of its bytes. *)
Record File := mkFile {
  name : option string;
  type : string;
  bytes : nat
}.

(** A decoded raster: an [ImageBitmap], or the [Image] element of the
    fallback loader; both expose [width] and [height]. *)
Record Bitmap := mkBitmap {
  width : Z;
  height : Z;
  pixels : nat
}.

(** The encoded image file the encoder hands to the [toBlob] callback; the
    components pass it on without looking inside. When the canvas cannot be
    encoded the callback receives [null] instead of a [Blob]. *)
Record Blob := mkBlob {
  encoded : nat;
  blobType : string
}.

(** What a custom size field holds: the number [600] of [useState(600)], or
    the string [e.target.value] stored by the input's [onChange]. *)
Inductive Field :=
| FNum (x : float)
| FStr (s : string).

(** [Number(v)] on such a value. *)
Definition Number (v : Field) : float :=
  match v with
  | FNum x => x
  | FStr s => JS.StringToNumber s
  end.

(** [a || b] on numbers. *)
Definition orElse (a b : float) : float :=
  if B64.truthy a then a else b.

(** A catalog entry. [label] and [info] are display text only (kept as the
    UTF-8 bytes of the source literal). *)
Module Preset.
Record t := mk {
  id : string;
  label : string;
  w : Z;
  h : Z;
  info : string
}.
End Preset.

(** The object [{ w, h }] returned by [getTargetSize]. *)
Record Size := mkSize {
  w : float;
  h : float
}.

(** The [useState] cells shared by both variants. *)
Record Session := mkSession {
  file : option File;
  previewURL : string;
  bitmap : option Bitmap;
  imgNatural : Z * Z;
  presetId : string;
  customW : Field;
  customH : Field;
  format : string;
  generatedURL : string;
  busy : bool;
  error : string
}.

Definition setFile (v : option File) (s : Session) : Session :=
  mkSession v (previewURL s) (bitmap s) (imgNatural s) (presetId s)
    (customW s) (customH s) (format s) (generatedURL s) (busy s) (error s).
Definition setPreviewURL (v : string) (s : Session) : Session :=
  mkSession (file s) v (bitmap s) (imgNatural s) (presetId s)
    (customW s) (customH s) (format s) (generatedURL s) (busy s) (error s).
Definition setBitmap (v : option Bitmap) (s : Session) : Session :=
  mkSession (file s) (previewURL s) v (imgNatural s) (presetId s)
    (customW s) (customH s) (format s) (generatedURL s) (busy s) (error s).
Definition setImgNatural (v : Z * Z) (s : Session) : Session :=
  mkSession (file s) (previewURL s) (bitmap s) v (presetId s)
    (customW s) (customH s) (format s) (generatedURL s) (busy s) (error s).
Definition setGeneratedURL (v : string) (s : Session) : Session :=
  mkSession (file s) (previewURL s) (bitmap s) (imgNatural s) (presetId s)
    (customW s) (customH s) (format s) v (busy s) (error s).
Definition setPresetId (v : string) (s : Session) : Session :=
  mkSession (file s) (previewURL s) (bitmap s) (imgNatural s) v
    (customW s) (customH s) (format s) (generatedURL s) (busy s) (error s).
Definition setCustomW (v : Field) (s : Session) : Session :=
  mkSession (file s) (previewURL s) (bitmap s) (imgNatural s) (presetId s)
    v (customH s) (format s) (generatedURL s) (busy s) (error s).
Definition setCustomH (v : Field) (s : Session) : Session :=
  mkSession (file s) (previewURL s) (bitmap s) (imgNatural s) (presetId s)
    (customW s) v (format s) (generatedURL s) (busy s) (error s).
Definition setFormat (v : string) (s : Session) : Session :=
  mkSession (file s) (previewURL s) (bitmap s) (imgNatural s) (presetId s)
    (customW s) (customH s) v (generatedURL s) (busy s) (error s).
Definition setBusy (v : bool) (s : Session) : Session :=
  mkSession (file s) (previewURL s) (bitmap s) (imgNatural s) (presetId s)
    (customW s) (customH s) (format s) (generatedURL s) v (error s).
Definition setError (v : string) (s : Session) : Session :=
  mkSession (file s) (previewURL s) (bitmap s) (imgNatural s) (presetId s)
    (customW s) (customH s) (format s) (generatedURL s) (busy s) v.

(** Calls on the canvas element and its 2d context, in program order. *)
Inductive CanvasOp :=
| SetWidth (v : float)
| SetHeight (v : float)
| Save
| Restore
| FillStyle (color : string)
| FillRect (x y w h : float)
| ImageSmoothingEnabled (b : bool)
| ImageSmoothingQuality (q : string)
| DrawImage (img : Bitmap) (sx sy sw sh dx dy dw dh : float).

(** What a handler does besides updating its state. *)
Inductive Effect :=
| CreateObjectURL_file (f : File)
| CreateObjectURL_blob (b : Blob)
| RevokeObjectURL (url : string)
| CreateImageBitmap (f : File) (fromImage : bool)
| LoadImage (url : string)
| Canvas (op : CanvasOp)
| ToBlob (mime : string) (quality : float)
| Download (href download : string)
| ConsoleError.

(** The answers of the browser: whether [createImageBitmap] exists, the
    outcome of each decoder ([None] is a rejected promise), the URLs handed
    out, and what the encoder passes to the [toBlob] callback ([None] is
    [null]) for the calls made on the canvas. *)
Record Platform := mkPlatform {
  hasCreateImageBitmap : bool;
  createImageBitmap : File -> bool -> option Bitmap;
  loadImageBitmapFallback : string -> option Bitmap;
  createObjectURL_file : File -> string;
  createObjectURL_blob : Blob -> string;
  toBlob : list CanvasOp -> string -> float -> option Blob
}.

(** The conversion of a number to an [unsigned long], which an assignment
    to [canvas.width] or [canvas.height] performs on the assigned value: NaN,
    both zeros and both infinities give 0; any other number is truncated
    toward zero and reduced modulo 2^32. *)
Definition toUnsignedLong (x : float) : Z :=
  match Prim2SF x with
  | S754_finite s m e =>
      let t := match e with
               | Zneg p => (Zpos m / 2 ^ Zpos p)%Z
               | _ => (Zpos m * 2 ^ e)%Z
               end in
      ((if s then - t else t) mod 2 ^ 32)%Z
  | _ => 0%Z
  end.

(** The dimension a canvas has after an assignment of [v]: the converted
    value when it is at most 2147483647, and otherwise the default of the
    attribute, 300 for the width and 150 for the height. *)
Definition canvasDimension (default : Z) (v : float) : Z :=
  let n := toUnsignedLong v in
  if (n <=? 2147483647)%Z then n else default.

(** The size of the drawing surface, in pixels, after a sequence of calls,
    from the size [d] before them: the dimensions that the last assignments
    to [canvas.width] and to [canvas.height] leave. *)
Fixpoint surface (d : Z * Z) (ops : list CanvasOp) : Z * Z :=
  match ops with
  | [] => d
  | SetWidth v :: ops' => surface (canvasDimension 300 v, snd d) ops'
  | SetHeight v :: ops' => surface (fst d, canvasDimension 150 v) ops'
  | _ :: ops' => surface d ops'
  end.

(** [x] is the whole number [z]. *)
Definition wholeNumber (x : float) (z : Z) : Prop :=
  exists q : Q, B64.to_Q x = Some q /\ (q == inject_Z z)%Q.

Definition isFill (op : CanvasOp) : bool :=
  match op with FillRect _ _ _ _ => true | _ => false end.

Definition isDraw (op : CanvasOp) : bool :=
  match op with DrawImage _ _ _ _ _ _ _ _ _ => true | _ => false end.

Definition canvasOps (es : list Effect) : list CanvasOp :=
  flat_map (fun e => match e with Canvas op => [op] | _ => [] end) es.

Definition downloads (es : list Effect) : list (string * string) :=
  flat_map (fun e => match e with Download a b => [(a, b)] | _ => [] end) es.

Definition isDecode (e : Effect) : bool :=
  match e with CreateImageBitmap _ _ | LoadImage _ => true | _ => false end.

(** Calls that create or revoke an object URL. *)
Definition isURLEffect (e : Effect) : bool :=
  match e with
  | RevokeObjectURL _ | CreateObjectURL_blob _ | CreateObjectURL_file _ => true
  | _ => false
  end.

(** Whether a string contains a dot. *)
Fixpoint hasDot (s : string) : bool :=
  match s with
  | EmptyString => false
  | String c s' => (Ascii.eqb c "."%char || hasDot s')%bool
  end.

(** ** The minimal variant ([src/App.jsx]) *)

Module Minimal.

Definition PRESETS : list Preset.t := [
  Preset.mk "sg-35x45" "Singapore Passport — 35×45 mm" 413 531 "~300 DPI";
  Preset.mk "my-35x50" "Malaysia Passport — 35×50 mm" 413 591 "~300 DPI";
  Preset.mk "ph-35x45" "Philippines Passport — 35×45 mm" 413 531 "~300 DPI";
  Preset.mk "us-2x2" "US Passport — 2×2 in" 600 600 "300 DPI";
  Preset.mk "schengen-35x45" "Schengen Visa — 35×45 mm" 413 531 "~300 DPI";
  Preset.mk "custom" "Custom (pixels)" 600 600 "Set below"
].

(** This variant keeps exactly the shared cells. *)
Definition State := Session.

(** [handleFiles]: [files] is [None] for a null or undefined list. The
    awaited decoders are answered by the platform. *)
Definition handleFiles (P : Platform) (st : State) (files : option (list File))
  : State * list Effect :=
  match match files with Some l => hd_error l | None => None end with
  | None => (st, [])
  | Some f =>
      if negb (JS.startsWith (type f) "image/") then
        (setError "Please upload an image file (JPG/PNG/etc)." st, [])
      else
        let st := setError "" st in
        let st := setFile (Some f) st in
        let url := createObjectURL_file P f in
        let st := setPreviewURL url st in
        let '(bmp, decoding) :=
          if hasCreateImageBitmap P then
            match createImageBitmap P f true with
            | Some b => (Some b, [CreateImageBitmap f true])
            | None => (createImageBitmap P f false,
                       [CreateImageBitmap f true; CreateImageBitmap f false])
            end
          else (loadImageBitmapFallback P url, [LoadImage url]) in
        match bmp with
        | Some b =>
            let st := setBitmap (Some b) st in
            let st := setImgNatural (width b, height b) st in
            (st, CreateObjectURL_file f :: decoding)
        | None =>
            (setError "Failed to load image. Try another file." st,
             (CreateObjectURL_file f :: decoding ++ [ConsoleError])%list)
        end
  end.

Definition getTargetSize (st : State) : Size :=
  let preset :=
    match find (fun p => Preset.id p =? presetId st) PRESETS with
    | Some p => p
    | None => hd (Preset.mk "" "" 0 0 "") PRESETS
    end in
  if Preset.id preset =? "custom" then
    {| w := orElse (Number (customW st)) 600;
       h := orElse (Number (customH st)) 600 |}
  else
    {| w := B64.of_Z (Preset.w preset); h := B64.of_Z (Preset.h preset) |}.

(** The cover-fit block of [doResize] (from [srcAspect] to the end of the
    [if]/[else]): the four variables are initialised to the full source and
    one branch overwrites an offset and an extent. *)
Definition coverFit {num : Type} `{JsArith num}
    (srcW srcH targetW targetH : num) : CropRect num :=
  let srcAspect := jdiv srcW srcH in
  let dstAspect := jdiv targetW targetH in
  let r := {| sx := jlit 0; sy := jlit 0; sw := srcW; sh := srcH |} in
  if jgt srcAspect dstAspect then
    let newSw := jmul srcH dstAspect in
    {| sx := jmax (jlit 0) (jdiv (jsub srcW newSw) (jlit 2));
       sy := sy r; sw := newSw; sh := sh r |}
  else
    let newSh := jdiv srcW dstAspect in
    {| sx := sx r;
       sy := jmax (jlit 0) (jdiv (jsub srcH newSh) (jlit 2));
       sw := sw r; sh := newSh |}.

(** The name given to the download: [base], the target size and [ext]. *)
Definition downloadName (f : option File) (targetW targetH : float) (mime : string)
  : string :=
  let ext := if mime =? "image/png" then "png" else "jpg" in
  let base :=
    match match f with Some f => name f | None => None end with
    | Some n => match JS.stripExtension n with
                | EmptyString => "passport"
                | b => b
                end
    | None => "passport"
    end in
  base ++ "_" ++ JS.Number_toString targetW ++ "x" ++ JS.Number_toString targetH
       ++ "." ++ ext.

(** [const quality = 0.92], the fixed encoder quality of this variant. *)
Definition quality : float := 0x1.d70a3d70a3d71p-1%float.

(** The render stage of [doResize]: from [canvas.width = targetW] to the
    [drawImage] call. *)
Definition render (st0 : State) (bmp : Bitmap) : list CanvasOp :=
  let targetW := w (getTargetSize st0) in
  let targetH := h (getTargetSize st0) in
  let srcW := B64.of_Z (width bmp) in
  let srcH := B64.of_Z (height bmp) in
  let c := coverFit srcW srcH targetW targetH in
  [SetWidth targetW; SetHeight targetH;
   FillStyle "#ffffff"; FillRect 0 0 targetW targetH;
   ImageSmoothingEnabled true; ImageSmoothingQuality "high";
   DrawImage bmp (sx c) (sy c) (sw c) (sh c) 0 0 targetW targetH].

(** [doResize]: the [try] block runs up to the encoder's answer; a [null]
    blob throws into the [catch], and [finally] clears [busy] on both
    paths. *)
Definition doResize (P : Platform) (st0 : State) : State * list Effect :=
  match bitmap st0 with
  | None => (setError "Please upload an image first." st0, [])
  | Some bmp =>
      let st := setBusy true st0 in
      let st := setError "" st in
      let targetW := w (getTargetSize st0) in
      let targetH := h (getTargetSize st0) in
      let ops := render st0 bmp in
      let mime := format st0 in
      match toBlob P ops mime quality with
      | None =>
          (setBusy false (setError "Something went wrong while resizing." st),
           (map Canvas ops ++ [ToBlob mime quality; ConsoleError])%list)
      | Some blob =>
          let revoked :=
            match generatedURL st0 with
            | EmptyString => []
            | url => [RevokeObjectURL url]
            end in
          let outURL := createObjectURL_blob P blob in
          let st := setGeneratedURL outURL st in
          (setBusy false st,
           (map Canvas ops ++ [ToBlob mime quality] ++ revoked
              ++ [CreateObjectURL_blob blob;
                  Download outURL (downloadName (file st0) targetW targetH mime)])%list)
      end
  end.

End Minimal.

(** ** The fuller variant (quality slider and background picker) *)

Module Full.

Definition PRESETS : list Preset.t := [
  Preset.mk "sg-35x45" "Singapore Passport — 35×45 mm" 413 531 "~300 DPI";
  Preset.mk "my-35x50" "Malaysia Passport — 35×50 mm" 413 591 "~300 DPI";
  Preset.mk "ph-35x45" "Philippines Passport — 35×45 mm" 413 531 "~300 DPI";
  Preset.mk "us-2x2" "US Passport — 2×2 in" 600 600 "300 DPI";
  Preset.mk "schengen-35x45" "Schengen Visa — 35×45 mm" 413 531 "~300 DPI";
  Preset.mk "custom" "Custom (pixels)" 600 600 "Set below"
].

(** This variant adds the [quality] and [bgColor] cells. *)
Record State := mkState {
  session : Session;
  quality : float;
  bgColor : string
}.

Definition update (f : Session -> Session) (st : State) : State :=
  mkState (f (session st)) (quality st) (bgColor st).
Definition setFile v := update (setFile v).
Definition setPreviewURL v := update (setPreviewURL v).
Definition setBitmap v := update (setBitmap v).
Definition setImgNatural v := update (setImgNatural v).
Definition setGeneratedURL v := update (setGeneratedURL v).
Definition setBusy v := update (setBusy v).
Definition setError v := update (setError v).

(** [handleFiles]: [files] is [None] for a null or undefined list. The
    awaited decoders are answered by the platform. *)
Definition handleFiles (P : Platform) (st : State) (files : option (list File))
  : State * list Effect :=
  match match files with Some l => hd_error l | None => None end with
  | None => (st, [])
  | Some f =>
      if negb (JS.startsWith (type f) "image/") then
        (setError "Please upload an image file (JPG, PNG, HEIC)." st, [])
      else
        let st := setError "" st in
        let st := setFile (Some f) st in
        let url := createObjectURL_file P f in
        let st := setPreviewURL url st in
        let '(bmp, decoding) :=
          if hasCreateImageBitmap P then
            match createImageBitmap P f true with
            | Some b => (Some b, [CreateImageBitmap f true])
            | None => (createImageBitmap P f false,
                       [CreateImageBitmap f true; CreateImageBitmap f false])
            end
          else (loadImageBitmapFallback P url, [LoadImage url]) in
        match bmp with
        | Some b =>
            let st := setBitmap (Some b) st in
            let st := setImgNatural (width b, height b) st in
            (st, CreateObjectURL_file f :: decoding)
        | None =>
            (setError "Failed to load image. Try another file." st,
             (CreateObjectURL_file f :: decoding ++ [ConsoleError])%list)
        end
  end.

Definition getTargetSize (st : State) : Size :=
  let preset :=
    match find (fun p => Preset.id p =? presetId (session st)) PRESETS with
    | Some p => p
    | None => hd (Preset.mk "" "" 0 0 "") PRESETS
    end in
  if Preset.id preset =? "custom" then
    {| w := orElse (Number (customW (session st))) 600;
       h := orElse (Number (customH (session st))) 600 |}
  else
    {| w := B64.of_Z (Preset.w preset); h := B64.of_Z (Preset.h preset) |}.

(** The cover-fit block of [doResize] (from [srcAspect] to the end of the
    [if]/[else]): the four variables are initialised to the full source and
    one branch overwrites an offset and an extent. *)
Definition coverFit {num : Type} `{JsArith num}
    (srcW srcH targetW targetH : num) : CropRect num :=
  let srcAspect := jdiv srcW srcH in
  let dstAspect := jdiv targetW targetH in
  let r := {| sx := jlit 0; sy := jlit 0; sw := srcW; sh := srcH |} in
  if jgt srcAspect dstAspect then
    let newSw := jmul srcH dstAspect in
    {| sx := jmax (jlit 0) (jdiv (jsub srcW newSw) (jlit 2));
       sy := sy r; sw := newSw; sh := sh r |}
  else
    let newSh := jdiv srcW dstAspect in
    {| sx := sx r;
       sy := jmax (jlit 0) (jdiv (jsub srcH newSh) (jlit 2));
       sw := sw r; sh := newSh |}.

(** The name given to the download: [base], the target size and [ext]. *)
Definition downloadName (f : option File) (targetW targetH : float) (mime : string)
  : string :=
  let ext := if mime =? "image/png" then "png" else "jpg" in
  let base :=
    match match f with Some f => name f | None => None end with
    | Some n => match JS.stripExtension n with
                | EmptyString => "passport"
                | b => b
                end
    | None => "passport"
    end in
  base ++ "_" ++ JS.Number_toString targetW ++ "x" ++ JS.Number_toString targetH
       ++ "." ++ ext.

(** The render stage of [doResize]: from [canvas.width = targetW] to the
    [drawImage] call. *)
Definition render (st0 : State) (bmp : Bitmap) : list CanvasOp :=
  let targetW := w (getTargetSize st0) in
  let targetH := h (getTargetSize st0) in
  let srcW := B64.of_Z (width bmp) in
  let srcH := B64.of_Z (height bmp) in
  let c := coverFit srcW srcH targetW targetH in
  [SetWidth targetW; SetHeight targetH;
   Save; FillStyle (bgColor st0); FillRect 0 0 targetW targetH; Restore;
   ImageSmoothingEnabled true; ImageSmoothingQuality "high";
   DrawImage bmp (sx c) (sy c) (sw c) (sh c) 0 0 targetW targetH].

(** [doResize]: the [try] block runs up to the encoder's answer; a [null]
    blob throws into the [catch], and [finally] clears [busy] on both
    paths. *)
Definition doResize (P : Platform) (st0 : State) : State * list Effect :=
  match bitmap (session st0) with
  | None => (setError "Please upload an image first." st0, [])
  | Some bmp =>
      let st := setBusy true st0 in
      let st := setError "" st in
      let targetW := w (getTargetSize st0) in
      let targetH := h (getTargetSize st0) in
      let ops := render st0 bmp in
      let mime := format (session st0) in
      let quality := quality st0 in
      match toBlob P ops mime quality with
      | None =>
          (setBusy false (setError "Something went wrong while resizing." st),
           (map Canvas ops ++ [ToBlob mime quality; ConsoleError])%list)
      | Some blob =>
          let revoked :=
            match generatedURL (session st0) with
            | EmptyString => []
            | url => [RevokeObjectURL url]
            end in
          let outURL := createObjectURL_blob P blob in
          let st := setGeneratedURL outURL st in
          (setBusy false st,
           (map Canvas ops ++ [ToBlob mime quality] ++ revoked
              ++ [CreateObjectURL_blob blob;
                  Download outURL
                    (downloadName (file (session st0)) targetW targetH mime)])%list)
      end
  end.

End Full.

(** The crop of a source of [srcW] by [srcH] pixels for a target of
    [targetW] by [targetH], all four whole numbers, as [doResize] computes
    it. *)
Definition cropOf (srcW srcH targetW targetH : Z) : CropRect float :=
  Minimal.coverFit (B64.of_Z srcW) (B64.of_Z srcH) (B64.of_Z targetW) (B64.of_Z targetH).

(** ** Sample sessions *)

Module Sample.

(** The state after mounting: every [useState] initial value. *)
Definition initial : Session :=
  mkSession None "" None (0, 0)%Z "sg-35x45" (FNum 600) (FNum 600)
    "image/jpeg" "" false "".

Definition photo : File := mkFile (Some "photo.jpg") "image/jpeg" 1.
Definition notes : File := mkFile (Some "notes.txt") "text/plain" 2.
Definition animation : File := mkFile (Some "photo.gif") "image/gif" 3.

Definition raster (srcW srcH : Z) : Bitmap := mkBitmap srcW srcH 1.

(** A session holding a decoded file. *)
Definition loaded (f : File) (b : Bitmap) : Session :=
  setImgNatural (width b, height b)
    (setBitmap (Some b) (setPreviewURL "blob:preview" (setFile (Some f) initial))).

(** The same with the custom preset selected and both fields typed. *)
Definition custom (f : File) (b : Bitmap) (cw ch : string) : Session :=
  setCustomH (FStr ch) (setCustomW (FStr cw) (setPresetId "custom" (loaded f b))).

(** A browser with [createImageBitmap] whose decoders and encoder answer
    as given. *)
Definition browser (decoded : option Bitmap) (encoded : option Blob) : Platform :=
  mkPlatform true (fun _ _ => decoded) (fun _ => decoded)
    (fun _ => "blob:preview") (fun _ => "blob:output")
    (fun _ _ _ => encoded).

Definition full (s : Session) : Full.State :=
  Full.mkState s 0x1.d70a3d70a3d71p-1%float "#ffffff".

End Sample.

(** ** The glue around the handlers, the cleanup effect and the view

    The same in both files, up to the handler they call and the wording of
    the button. *)

(** The calls [onDrop] makes on its event. *)
Inductive EventCall :=
| PreventDefault
| StopPropagation.

(** A clipboard item as [onPaste] reads it: its [type] and the result of
    [getAsFile()] ([None] is [null]). *)
Record ClipboardItem := mkItem {
  itemType : string;
  getAsFile : option File
}.

(** The function returned by the [useEffect] callback of the render whose
    state is [st]: it revokes the two URLs of that render that are not
    empty. *)
Definition cleanup (st : Session) : list Effect :=
  ((match previewURL st with
    | EmptyString => []
    | url => [RevokeObjectURL url]
    end)
   ++ (match generatedURL st with
       | EmptyString => []
       | url => [RevokeObjectURL url]
       end))%list.

(** What React runs between the render with state [prev] and the one with
    state [next]: the cleanup of the former when one of the dependencies
    [[previewURL, generatedURL]] differs. *)
Definition afterRender (prev next : Session) : list Effect :=
  if ((previewURL prev =? previewURL next)
      && (generatedURL prev =? generatedURL next))%bool
  then []
  else cleanup prev.

(** On unmount the cleanup of the last render runs. *)
Definition unmount (st : Session) : list Effect := cleanup st.

(** [disabled={busy || !bitmap}] on the resize button. *)
Definition resizeDisabled (st : Session) : bool :=
  (busy st || match bitmap st with None => true | Some _ => false end)%bool.

(** The bitmap the decoder chain of [handleFiles] ends with for a file:
    [createImageBitmap] with the orientation option, then without it if
    that rejects, or the [Image] loader on the preview URL when
    [createImageBitmap] does not exist. *)
Definition decoded (P : Platform) (f : File) : option Bitmap :=
  if hasCreateImageBitmap P then
    match createImageBitmap P f true with
    | Some b => Some b
    | None => createImageBitmap P f false
    end
  else loadImageBitmapFallback P (createObjectURL_file P f).

(** The decoder calls of that chain, in order. *)
Definition decodeCalls (P : Platform) (f : File) : list Effect :=
  if hasCreateImageBitmap P then
    match createImageBitmap P f true with
    | Some _ => [CreateImageBitmap f true]
    | None => [CreateImageBitmap f true; CreateImageBitmap f false]
    end
  else [LoadImage (createObjectURL_file P f)].

Module MinimalGlue.

(** [onDrop]: [dataTransfer] is [None] for a null [e.dataTransfer], and
    [Some None] when it has no [files]. *)
Definition onDrop (P : Platform) (st : Minimal.State)
    (dataTransfer : option (option (list File)))
  : list EventCall * (Minimal.State * list Effect) :=
  ([PreventDefault; StopPropagation],
   match dataTransfer with
   | Some (Some (f :: l)) => Minimal.handleFiles P st (Some (f :: l))
   | _ => (st, [])
   end).

(** [onPaste]: [items] is [None] when [e.clipboardData?.items] is
    undefined. *)
Definition onPaste (P : Platform) (st : Minimal.State)
    (items : option (list ClipboardItem)) : Minimal.State * list Effect :=
  match find (fun i => JS.startsWith (itemType i) "image/")
             (match items with Some l => l | None => [] end) with
  | Some item =>
      match getAsFile item with
      | Some f => Minimal.handleFiles P st (Some [f])
      | None => (st, [])
      end
  | None => (st, [])
  end.

(** The text of the resize button. *)
Definition resizeLabel (st : Minimal.State) : string :=
  if busy st then "Resizing…"
  else match previewURL st with
       | EmptyString => "Upload a picture first"
       | _ => "Resize & Download"
       end.

(** One handler call, or one [onChange] of a control. *)
Inductive Step (st : Minimal.State) : Minimal.State -> Prop :=
| StepFiles (P : Platform) (files : option (list File)) :
    Step st (fst (Minimal.handleFiles P st files))
| StepDrop (P : Platform) (dt : option (option (list File))) :
    Step st (fst (snd (onDrop P st dt)))
| StepPaste (P : Platform) (items : option (list ClipboardItem)) :
    Step st (fst (onPaste P st items))
| StepResize (P : Platform) :
    Step st (fst (Minimal.doResize P st))
| StepPreset (v : string) : Step st (setPresetId v st)
| StepCustomW (v : string) : Step st (setCustomW (FStr v) st)
| StepCustomH (v : string) : Step st (setCustomH (FStr v) st)
| StepFormat (v : string) : Step st (setFormat v st).

(** The sessions the component can be in between two events. *)
Inductive Reachable : Minimal.State -> Prop :=
| ReachInitial : Reachable Sample.initial
| ReachStep (st st' : Minimal.State) :
    Reachable st -> Step st st' -> Reachable st'.

End MinimalGlue.

Module FullGlue.

Definition onDrop (P : Platform) (st : Full.State)
    (dataTransfer : option (option (list File)))
  : list EventCall * (Full.State * list Effect) :=
  ([PreventDefault; StopPropagation],
   match dataTransfer with
   | Some (Some (f :: l)) => Full.handleFiles P st (Some (f :: l))
   | _ => (st, [])
   end).

Definition onPaste (P : Platform) (st : Full.State)
    (items : option (list ClipboardItem)) : Full.State * list Effect :=
  match find (fun i => JS.startsWith (itemType i) "image/")
             (match items with Some l => l | None => [] end) with
  | Some item =>
      match getAsFile item with
      | Some f => Full.handleFiles P st (Some [f])
      | None => (st, [])
      end
  | None => (st, [])
  end.

(** The text of the resize button. *)
Definition resizeLabel (st : Full.State) : string :=
  if busy (Full.session st) then "Resizing…"
  else match previewURL (Full.session st) with
       | EmptyString => "Upload a picture first"
       | _ => "Resize this picture"
       end.

End FullGlue.

(** What links a decoded bitmap to the rest of the session: the natural
    dimensions shown are its own and a file is stored; without a bitmap the
    dimensions are still the initial zeros. *)
Definition consistent (st : Session) : Prop :=
  match bitmap st with
  | Some b => imgNatural st = (width b, height b) /\ file st <> None
  | None => imgNatural st = (0, 0)%Z
  end.

(** The crop with its two axes exchanged. *)
Definition transpose {num : Type} (r : CropRect num) : CropRect num :=
  {| sx := sy r; sy := sx r; sw := sh r; sh := sw r |}.

(** The crop with every component multiplied by [k]. *)
Definition scaleCrop (k : Q) (r : CropRect Q) : CropRect Q :=
  {| sx := k * sx r; sy := k * sy r; sw := k * sw r; sh := k * sh r |}%Q.

(** Component-wise equality of exact crops. *)
Definition cropEq (a b : CropRect Q) : Prop :=
  (sx a == sx b /\ sy a == sy b /\ sw a == sw b /\ sh a == sh b)%Q.

(** The encoder call. *)
Definition isToBlob (e : Effect) : bool :=
  match e with ToBlob _ _ => true | _ => false end.

(** Calls that an encoder sees but that paint nothing. *)
Definition isSaveRestore (op : CanvasOp) : bool :=
  match op with Save | Restore => true | _ => false end.

(** * Properties *)

(** ** The crop computation in exact arithmetic *)

Section ExactCrop.

Open Scope Q_scope.

Lemma exact_gt_true (a b : Q) : jgt a b = true -> b < a.
Proof.
  simpl. rewrite negb_true_iff. intro E.
  apply Qnot_le_lt. intro Hle. apply Qle_bool_iff in Hle. congruence.
Qed.

Lemma exact_gt_false (a b : Q) : jgt a b = false -> a <= b.
Proof.
  simpl. rewrite negb_false_iff. apply Qle_bool_iff.
Qed.

Lemma Qmax_zero_nonneg (x : Q) : 0 <= x -> Qmax 0 x == x.
Proof. intro Hx. apply Q.max_r. exact Hx. Qed.

Lemma Qdiv_pos (a b : Q) : 0 < a -> 0 < b -> 0 < a / b.
Proof.
  intros Ha Hb. apply Qlt_shift_div_l; [exact Hb | lra].
Qed.

Lemma Qdiv_cancel (a b : Q) : 0 < b -> a / b * b == a.
Proof. intro Hb. field. lra. Qed.

Lemma Qhalf (t : Q) : t / 2 == t * (1 # 2).
Proof. field. Qed.

Variables srcW srcH targetW targetH : Q.
Hypothesis srcW_pos : 0 < srcW.
Hypothesis srcH_pos : 0 < srcH.
Hypothesis targetW_pos : 0 < targetW.
Hypothesis targetH_pos : 0 < targetH.

Let d : Q := targetW / targetH.

Lemma dstAspect_pos : 0 < d.
Proof. apply Qdiv_pos; assumption. Qed.

(** The shape of the result on the "source is wider" branch. *)
Lemma exact_wide :
  d < srcW / srcH ->
  Minimal.coverFit srcW srcH targetW targetH
  = mkCrop (Qmax 0 ((srcW - srcH * d) / 2)) 0 (srcH * d) srcH
  /\ srcH * d < srcW.
Proof.
  intro Hlt. split.
  - unfold Minimal.coverFit. fold d.
    destruct (jgt (jdiv srcW srcH) (jdiv targetW targetH)) eqn:E.
    + reflexivity.
    + apply exact_gt_false in E. simpl in E. fold d in E. lra.
  - apply Qmult_lt_compat_r with (z := srcH) in Hlt; [|assumption].
    rewrite Qdiv_cancel in Hlt by assumption. lra.
Qed.

(** The shape of the result on the other branch. *)
Lemma exact_tall :
  srcW / srcH <= d ->
  Minimal.coverFit srcW srcH targetW targetH
  = mkCrop 0 (Qmax 0 ((srcH - srcW / d) / 2)) srcW (srcW / d)
  /\ srcW / d <= srcH.
Proof.
  intro Hle. pose proof dstAspect_pos as Hd. split.
  - unfold Minimal.coverFit. fold d.
    destruct (jgt (jdiv srcW srcH) (jdiv targetW targetH)) eqn:E.
    + apply exact_gt_true in E. simpl in E. fold d in E. lra.
    + reflexivity.
  - apply Qle_shift_div_r; [exact Hd|].
    apply Qmult_le_compat_r with (z := srcH) in Hle; [|lra].
    rewrite Qdiv_cancel in Hle by assumption. lra.
Qed.

Lemma exact_cases : d < srcW / srcH \/ srcW / srcH <= d.
Proof. destruct (Qlt_le_dec d (srcW / srcH)); auto. Qed.

End ExactCrop.

Unset Implicit Arguments.

(** C1 (amended): in binary64, whatever the inputs, the "wider" branch
    returns [sh = srcH], [sw = srcH * (targetW / targetH)], [sy = 0] and the
    clamped offset [sx = Math.max(0, (srcW - sw) / 2)], and the other branch
    [sw = srcW], [sh = srcW / (targetW / targetH)], [sx = 0] and
    [sy = Math.max(0, (srcH - sh) / 2)]. In exact arithmetic, for positive
    source and target sizes, the clamp changes nothing, the crop has the
    target's aspect ratio, is centered in the source, lies within it, and no
    rectangle of that aspect ratio lying within the source is wider or
    higher. *)
Theorem coverFit_spec :
  (forall srcW srcH targetW targetH : float,
     let r := Minimal.coverFit srcW srcH targetW targetH in
     ((B64.gt (srcW / srcH) (targetW / targetH) = true ->
         sh r = srcH /\ sw r = srcH * (targetW / targetH)
         /\ sx r = B64.Math_max 0 ((srcW - sw r) / 2) /\ sy r = 0)
      /\ (B64.gt (srcW / srcH) (targetW / targetH) = false ->
         sw r = srcW /\ sh r = srcW / (targetW / targetH)
         /\ sy r = B64.Math_max 0 ((srcH - sh r) / 2) /\ sx r = 0))%float)
  /\
  (forall srcW srcH targetW targetH : Q,
     (0 < srcW)%Q -> (0 < srcH)%Q -> (0 < targetW)%Q -> (0 < targetH)%Q ->
     let r := Minimal.coverFit srcW srcH targetW targetH in
     (sw r / sh r == targetW / targetH
      /\ (sx r + sw r / 2 == srcW / 2 /\ sy r + sh r / 2 == srcH / 2)
      /\ (0 <= sx r /\ 0 <= sy r /\ sx r + sw r <= srcW /\ sy r + sh r <= srcH)
      /\ (forall x y cw ch : Q,
            0 < cw -> 0 < ch -> cw / ch == targetW / targetH ->
            0 <= x -> 0 <= y -> x + cw <= srcW -> y + ch <= srcH ->
            cw <= sw r /\ ch <= sh r)
      /\ (targetW / targetH < srcW / srcH ->
            sh r == srcH /\ sw r == srcH * (targetW / targetH)
            /\ sx r == (srcW - sw r) / 2 /\ sy r == 0)
      /\ (~ targetW / targetH < srcW / srcH ->
            sw r == srcW /\ sh r == srcW / (targetW / targetH)
            /\ sy r == (srcH - sh r) / 2 /\ sx r == 0))%Q).
Proof.
  split.
  - intros srcW srcH targetW targetH r. subst r. unfold Minimal.coverFit.
    change (jgt (jdiv srcW srcH) (jdiv targetW targetH))
      with (B64.gt (srcW / srcH)%float (targetW / targetH)%float).
    destruct (B64.gt (srcW / srcH) (targetW / targetH)); cbn [sx sy sw sh];
      split; intro E; try discriminate; repeat split.
  - intros srcW srcH targetW targetH HsW HsH HtW HtH r.
    pose proof (dstAspect_pos HtW HtH) as Hd.
    assert (Hcand : forall cw ch : Q, (0 < ch -> cw / ch == targetW / targetH ->
                      cw == ch * (targetW / targetH))%Q).
    { intros cw ch Hch E. rewrite <- E. field. lra. }
    destruct (exact_cases srcW srcH targetW targetH) as [Hwide | Htall].
    + destruct (exact_wide HsH Hwide) as [Er Hlt].
      subst r. rewrite Er. cbn [sx sy sw sh].
      set (d := (targetW / targetH)%Q) in *.
      assert (Hx : (Qmax 0 ((srcW - srcH * d) / 2) == (srcW - srcH * d) / 2)%Q).
      { apply Qmax_zero_nonneg. rewrite Qhalf. lra. }
      rewrite Hx.
      split; [|split; [|split; [|split; [|split]]]].
      * field. lra.
      * split; field.
      * rewrite !Qhalf. repeat split; lra.
      * intros x y cw ch Hcw Hch E Hx0 Hy0 Hxw Hyh.
        split; [|lra].
        rewrite (Hcand cw ch) by assumption.
        apply Qmult_le_compat_r; lra.
      * intros _; repeat split; try lra; try (field; lra).
      * intro Hn. contradiction.
    + destruct (exact_tall HsH HtW HtH Htall) as [Er Hle].
      subst r. rewrite Er. cbn [sx sy sw sh].
      set (d := (targetW / targetH)%Q) in *.
      assert (Hy : (Qmax 0 ((srcH - srcW / d) / 2) == (srcH - srcW / d) / 2)%Q).
      { apply Qmax_zero_nonneg. rewrite Qhalf. lra. }
      rewrite Hy.
      assert (Hq : (0 < srcW / d)%Q) by (apply Qdiv_pos; assumption).
      split; [|split; [|split; [|split; [|split]]]].
      * field. split; lra.
      * split; field; lra.
      * rewrite !Qhalf. repeat split; lra.
      * intros x y cw ch Hcw Hch E Hx0 Hy0 Hxw Hyh.
        split; [lra|].
        apply Qle_shift_div_l; [exact Hd|].
        rewrite <- (Hcand cw ch) by assumption. lra.
      * intro Hn. lra.
      * intros _; repeat split; try lra; try (field; lra).
Qed.

(** ** Comparisons of binary64 numbers *)

Lemma SFcompare_Eq_sym (a b : spec_float) :
  SFcompare a b = Some Eq -> SFcompare b a = Some Eq.
Proof.
  destruct a as [sa | sa | | sa ma ea], b as [sb | sb | | sb mb eb];
    simpl; try discriminate; try reflexivity;
    try (destruct sa; discriminate); try (destruct sb; discriminate).
  - destruct sa, sb; intro E; try discriminate; reflexivity.
  - intro E.
    assert (Hem : ea = eb /\ ma = mb).
    { destruct sa, sb; try discriminate;
        destruct (Z.compare_spec ea eb) as [He | He | He]; try discriminate;
        (split; [exact He|]);
        destruct (PosDef.Pos.compare_cont Eq ma mb) eqn:C; simpl in E;
        try discriminate; apply Pos.compare_eq; exact C. }
    destruct Hem as [-> ->].
    rewrite Z.compare_refl.
    change (PosDef.Pos.compare_cont Eq mb mb) with (Pos.compare mb mb).
    rewrite Pos.compare_refl.
    destruct sb; try reflexivity; destruct sa; try reflexivity; discriminate.
Qed.

(** [a === b] excludes [b > a]. *)
Lemma strict_eq_not_gt (a b : float) :
  B64.strict_eq a b = true -> B64.gt a b = false.
Proof.
  unfold B64.strict_eq, B64.gt. rewrite eqb_spec, ltb_spec.
  unfold SFeqb, SFltb. intro E.
  destruct (SFcompare (Prim2SF a) (Prim2SF b)) as [[ | | ] | ] eqn:C;
    try discriminate.
  rewrite (SFcompare_Eq_sym _ _ C). reflexivity.
Qed.

(** ** The crop computation in binary64 *)

(** Both variants contain the same cover-fit block. *)
Lemma coverFit_variants (num : Type) (A : JsArith num)
    (srcW srcH targetW targetH : num) :
  Full.coverFit srcW srcH targetW targetH
  = Minimal.coverFit srcW srcH targetW targetH.
Proof. reflexivity. Qed.

(** The worked examples of the specification hold exactly. *)
Example crop_1000x500_to_square :
  cropOf 1000 500 600 600 = (mkCrop 250 0 500 500)%float.
Proof. reflexivity. Qed.

Example crop_500x1000_to_square :
  cropOf 500 1000 600 600 = (mkCrop 0 250 500 500)%float.
Proof. reflexivity. Qed.

Example crop_800x600_to_400x300 :
  cropOf 800 600 400 300 = (mkCrop 0 0 800 600)%float.
Proof. reflexivity. Qed.

(** In binary64 the clamp [Math.max(0, t)] is never below zero. *)
Lemma Math_max_zero_not_negative (t : float) :
  PrimFloat.ltb (B64.Math_max 0 t) 0 = false.
Proof.
  unfold B64.Math_max.
  destruct (is_nan 0%float || is_nan t)%bool; [reflexivity|].
  destruct (PrimFloat.ltb 0%float t) eqn:L.
  - rewrite ltb_spec in *. unfold SFltb in *.
    change (Prim2SF 0%float) with (S754_zero false) in *.
    destruct (Prim2SF t) as [s | s | | s m e]; simpl in *;
      try discriminate; destruct s; try discriminate; reflexivity.
  - destruct (PrimFloat.ltb t 0%float); reflexivity.
Qed.

(** ** Rounding in binary64

    The operations of the crop computation round to the nearest binary64
    number. The lemmas below bound the error of one division,
    multiplication or subtraction by the relative amount [eps], from the
    definitions of these operations on mantissas and exponents, for operands
    and results away from overflow and from the subnormal range. *)

Section RoundingMantissas.

Local Open Scope Z_scope.

Lemma digits2_pos_bounds (m : positive) :
  2 ^ (Zpos (digits2_pos m) - 1) <= Zpos m < 2 ^ Zpos (digits2_pos m).
Proof.
  induction m as [m IH | m IH |]; cbn [digits2_pos].
  - rewrite Pos2Z.inj_succ.
    replace (Z.succ (Zpos (digits2_pos m)) - 1) with (Z.succ (Zpos (digits2_pos m) - 1)) by lia.
    rewrite !Z.pow_succ_r by lia. lia.
  - rewrite Pos2Z.inj_succ.
    replace (Z.succ (Zpos (digits2_pos m)) - 1) with (Z.succ (Zpos (digits2_pos m) - 1)) by lia.
    rewrite !Z.pow_succ_r by lia. lia.
  - simpl. lia.
Qed.

Lemma digits2_pos_unique (m : positive) (k : Z) :
  2 ^ (k - 1) <= Zpos m < 2 ^ k -> Zpos (digits2_pos m) = k.
Proof.
  intro H. pose proof (digits2_pos_bounds m) as B.
  assert (0 < k).
  { destruct (Z_lt_le_dec 0 k) as [L | L]; [exact L|].
    exfalso. assert (2 ^ k <= 1).
    { destruct (Z.eq_dec k 0) as [-> | N]; [simpl; lia|].
      rewrite Z.pow_neg_r by lia. lia. }
    lia. }
  destruct (Z.lt_trichotomy (Zpos (digits2_pos m)) k) as [L | [E | L]]; [|exact E|].
  - exfalso.
    assert (2 ^ Zpos (digits2_pos m) <= 2 ^ (k - 1)) by (apply Z.pow_le_mono_r; lia).
    lia.
  - exfalso.
    assert (2 ^ k <= 2 ^ (Zpos (digits2_pos m) - 1)) by (apply Z.pow_le_mono_r; lia).
    lia.
Qed.

Lemma shr_1_m (mrs : shr_record) :
  0 <= shr_m mrs -> shr_m (shr_1 mrs) = shr_m mrs / 2.
Proof.
  destruct mrs as [m r s]. cbn [shr_m]. intro H.
  destruct m as [| p | p]; [reflexivity | | lia].
  destruct p as [p | p |]; cbn [shr_1 shr_m].
  - apply Z.div_unique with 1; lia.
  - apply Z.div_unique with 0; lia.
  - reflexivity.
Qed.

Lemma iter_pos_shr_1 (p : positive) :
  forall mrs, 0 <= shr_m mrs ->
  shr_m (iter_pos shr_1 p mrs) = shr_m mrs / 2 ^ Zpos p.
Proof.
  assert (Hnn : forall mrs, 0 <= shr_m mrs -> 0 <= shr_m (shr_1 mrs)).
  { intros mrs H. rewrite shr_1_m by exact H. apply Z.div_pos; lia. }
  induction p as [p IH | p IH |]; intros mrs H; cbn [iter_pos].
  - assert (P : 0 < 2 ^ Zpos p) by (apply Z.pow_pos_nonneg; lia).
    rewrite IH.
    2:{ rewrite IH by (apply Hnn; exact H). apply Z.div_pos; [apply Hnn; exact H | exact P]. }
    rewrite IH by (apply Hnn; exact H). rewrite shr_1_m by exact H.
    rewrite !Z.div_div by lia.
    replace (Zpos p~1) with (1 + Zpos p + Zpos p) by lia.
    rewrite !Z.pow_add_r by lia. f_equal. change (2 ^ 1) with 2. lia.
  - assert (P : 0 < 2 ^ Zpos p) by (apply Z.pow_pos_nonneg; lia).
    rewrite IH.
    2:{ rewrite IH by exact H. apply Z.div_pos; [exact H | exact P]. }
    rewrite IH by exact H.
    rewrite !Z.div_div by lia.
    replace (Zpos p~0) with (Zpos p + Zpos p) by lia.
    rewrite !Z.pow_add_r by lia. reflexivity.
  - rewrite shr_1_m by exact H. reflexivity.
Qed.

Lemma shr_spec (mrs : shr_record) (e n : Z) :
  0 <= shr_m mrs -> 0 <= n ->
  snd (shr mrs e n) = e + n /\ shr_m (fst (shr mrs e n)) = shr_m mrs / 2 ^ n.
Proof.
  intros Hm Hn. destruct n as [| p | p]; cbn [shr fst snd].
  - split; [lia | rewrite Z.div_1_r; reflexivity].
  - split; [reflexivity | apply iter_pos_shr_1; exact Hm].
  - lia.
Qed.

Lemma shr_record_of_loc_m (m : Z) (l : location) : shr_m (shr_record_of_loc m l) = m.
Proof. destruct l as [| []]; reflexivity. Qed.

Lemma round_nearest_even_cases (m : Z) (l : location) :
  round_nearest_even m l = m \/ round_nearest_even m l = m + 1.
Proof.
  destruct l as [| []]; cbn [round_nearest_even]; auto.
  destruct (Z.even m); auto.
Qed.

(** Rounding of a mantissa of at least 53 digits, away from overflow and
    from the subnormal range. *)
Lemma binary_round_aux_normal (s : bool) (m : positive) (e : Z) (l : location) :
  let d := Zpos (digits2_pos m) in
  53 <= d -> -1074 <= e + d - 53 -> e + d - 53 < 971 ->
  exists (m' : positive) (e' r : Z),
    binary_round_aux prec emax s (Zpos m) e l = S754_finite s m' e'
    /\ (r = Zpos m / 2 ^ (d - 53) \/ r = Zpos m / 2 ^ (d - 53) + 1)
    /\ Zpos (digits2_pos m') = 53
    /\ ((e' = e + d - 53 /\ Zpos m' = r) \/ (e' = e + d - 52 /\ 2 * Zpos m' = r)).
Proof.
  intros d Hd Hlo Hhi.
  pose proof (digits2_pos_bounds m) as Bm. fold d in Bm.
  set (n := d - 53) in *.
  assert (Pn : 0 < 2 ^ n) by (apply Z.pow_pos_nonneg; lia).
  assert (Bm1 : 2 ^ 52 <= Zpos m / 2 ^ n < 2 ^ 53).
  { replace (d - 1) with (52 + n) in Bm by lia.
    replace d with (53 + n) in Bm by lia.
    rewrite !Z.pow_add_r in Bm by lia. split.
    - apply Z.div_le_lower_bound; lia.
    - apply Z.div_lt_upper_bound; lia. }
  unfold binary_round_aux.
  destruct (shr_fexp prec emax (Zpos m) e l) as [mrs1 e1] eqn:E1.
  unfold shr_fexp in E1. cbn [Zdigits2] in E1. fold d in E1.
  assert (F1 : fexp prec emax (d + e) - e = n).
  { unfold fexp, SpecFloat.emin, prec, emax. lia. }
  rewrite F1 in E1.
  destruct (shr_spec (shr_record_of_loc (Zpos m) l) e n) as [S1 S2].
  { rewrite shr_record_of_loc_m. lia. } { lia. }
  rewrite E1 in S1, S2. cbn [fst snd] in S1, S2. rewrite shr_record_of_loc_m in S2.
  set (r := round_nearest_even (shr_m mrs1) (loc_of_shr_record mrs1)).
  assert (Hr : r = Zpos m / 2 ^ n \/ r = Zpos m / 2 ^ n + 1).
  { subst r. rewrite <- S2. apply round_nearest_even_cases. }
  assert (Br : 2 ^ 52 <= r <= 2 ^ 53) by lia.
  destruct r as [| rp | rp] eqn:Er; [lia | | lia].
  destruct (Z.eq_dec (Zpos rp) (2 ^ 53)) as [Top | NTop].
  - (* the carry: one more exact shift *)
    assert (rp = 9007199254740992%positive) by (apply Pos2Z.inj; exact Top).
    subst rp.
    exists 4503599627370496%positive, (e1 + 1), (2 ^ 53).
    assert (E2 : shr_fexp prec emax (Zpos 9007199254740992) e1 loc_Exact
                 = ({| shr_m := Zpos 4503599627370496; shr_r := false; shr_s := false |},
                    e1 + 1)).
    { unfold shr_fexp. change (Zdigits2 (Zpos 9007199254740992)) with 54.
      replace (fexp prec emax (54 + e1) - e1) with 1
        by (unfold fexp, SpecFloat.emin, prec, emax; lia).
      reflexivity. }
    rewrite E2. cbn [shr_m].
    replace (e1 + 1 <=? emax - prec) with true
      by (symmetry; apply Z.leb_le; unfold emax, prec; lia).
    split; [reflexivity|]. split; [exact Hr|]. split; [reflexivity|].
    right. split; [lia | reflexivity].
  - exists rp, e1, (Zpos rp).
    assert (Dr : Zpos (digits2_pos rp) = 53) by (apply digits2_pos_unique; lia).
    assert (E2 : shr_fexp prec emax (Zpos rp) e1 loc_Exact
                 = ({| shr_m := Zpos rp; shr_r := false; shr_s := false |}, e1)).
    { unfold shr_fexp. cbn [Zdigits2]. rewrite Dr.
      replace (fexp prec emax (53 + e1) - e1) with 0.
      - reflexivity.
      - unfold fexp, SpecFloat.emin, prec, emax. lia. }
    rewrite E2. cbn [shr_m].
    replace (e1 <=? emax - prec) with true
      by (symmetry; apply Z.leb_le; unfold emax, prec; lia).
    split; [reflexivity|]. split; [exact Hr|]. split; [exact Dr|].
    left. split; [lia | reflexivity].
Qed.

End RoundingMantissas.

Section RoundingValues.

Local Open Scope Q_scope.

Lemma Qpow2_pos (e : Z) : 0 < 2 ^ e.
Proof. apply Qpower_0_lt. reflexivity. Qed.

Lemma Qpow2_add (a b : Z) : 2 ^ (a + b) == 2 ^ a * 2 ^ b.
Proof. apply Qpower_plus. discriminate. Qed.

Lemma Qpow2_Z (n : Z) : (0 <= n)%Z -> inject_Z (2 ^ n) == 2 ^ n.
Proof. intro H. rewrite Zpower_Qpower by exact H. reflexivity. Qed.

Lemma F2Q_shift (m e n : Z) : (0 <= n)%Z -> F2Q (m * 2 ^ n) e == F2Q m (e + n).
Proof.
  intro H. unfold F2Q. rewrite inject_Z_mult, Qpow2_Z by exact H.
  rewrite Qpow2_add. ring.
Qed.

Lemma F2Q_le (m n e : Z) : (m <= n)%Z -> F2Q m e <= F2Q n e.
Proof.
  intro H. unfold F2Q. apply Qmult_le_compat_r.
  - rewrite <- Zle_Qle. exact H.
  - apply Qlt_le_weak, Qpow2_pos.
Qed.

Lemma F2Q_pos (m : positive) (e : Z) : 0 < F2Q (Zpos m) e.
Proof.
  unfold F2Q. apply Qmult_lt_0_compat; [reflexivity | apply Qpow2_pos].
Qed.

Lemma round_value (m m' : positive) (e e' r d : Z) (x : Q) :
  (53 <= d)%Z -> (2 ^ (d - 1) <= Zpos m < 2 ^ d)%Z ->
  (r = Zpos m / 2 ^ (d - 53) \/ r = Zpos m / 2 ^ (d - 53) + 1)%Z ->
  ((e' = e + d - 53 /\ Zpos m' = r) \/ (e' = e + d - 52 /\ 2 * Zpos m' = r))%Z ->
  F2Q (Zpos m) e <= x -> x < F2Q (Zpos m + 1) e ->
  x * (1 - eps) <= F2Q (Zpos m') e' /\ F2Q (Zpos m') e' <= x * (1 + eps).
Proof.
  intros Hd Bm Hr He Hx1 Hx2.
  set (n := (d - 53)%Z) in *.
  assert (Pn : (0 < 2 ^ n)%Z) by (apply Z.pow_pos_nonneg; lia).
  set (m1 := (Zpos m / 2 ^ n)%Z) in *.
  assert (Bm1 : (2 ^ 52 <= m1)%Z).
  { replace (d - 1)%Z with (52 + n)%Z in Bm by lia.
    rewrite Z.pow_add_r in Bm by lia.
    apply Z.div_le_lower_bound; lia. }
  assert (Dm : (m1 * 2 ^ n <= Zpos m /\ Zpos m + 1 <= (m1 + 1) * 2 ^ n)%Z).
  { pose proof (Z.div_mod (Zpos m) (2 ^ n) ltac:(lia)) as E.
    pose proof (Z.mod_pos_bound (Zpos m) (2 ^ n) Pn) as B.
    fold m1 in E. nia. }
  set (u := 2 ^ (e + n)).
  assert (Pu : 0 < u) by apply Qpow2_pos.
  assert (Ev : F2Q (Zpos m') e' == inject_Z r * u).
  { destruct He as [[-> <-] | [-> <-]].
    - unfold F2Q, u. replace (e + d - 53)%Z with (e + n)%Z by lia. reflexivity.
    - unfold F2Q, u. replace (e + d - 52)%Z with (e + n + 1)%Z by lia.
      rewrite inject_Z_mult, (Qpow2_add (e + n) 1).
      change (2 ^ 1) with 2. change (inject_Z 2) with 2. ring. }
  assert (L1 : inject_Z m1 * u <= x).
  { apply Qle_trans with (F2Q (Zpos m) e); [|exact Hx1].
    apply Qle_trans with (F2Q (m1 * 2 ^ n) e).
    - rewrite F2Q_shift by lia. unfold F2Q, u. apply Qle_refl.
    - apply F2Q_le. lia. }
  assert (L2 : x < (inject_Z m1 + 1) * u).
  { apply Qlt_le_trans with (F2Q (Zpos m + 1) e); [exact Hx2|].
    apply Qle_trans with (F2Q ((m1 + 1) * 2 ^ n) e).
    - apply F2Q_le. lia.
    - rewrite F2Q_shift by lia. unfold F2Q, u.
      rewrite inject_Z_plus. apply Qle_refl. }
  assert (L3 : 4503599627370496 * u <= inject_Z m1 * u).
  { apply Qmult_le_compat_r; [|apply Qlt_le_weak; exact Pu].
    change 4503599627370496 with (inject_Z (2 ^ 52)). rewrite <- Zle_Qle. exact Bm1. }
  assert (Rr : inject_Z r == inject_Z m1 \/ inject_Z r == inject_Z m1 + 1).
  { destruct Hr as [-> | ->]; [left; reflexivity | right].
    rewrite inject_Z_plus. reflexivity. }
  rewrite Ev. unfold eps.
  set (a := inject_Z m1 * u) in *.
  assert (L2' : x < a + u) by (unfold a; lra).
  destruct Rr as [-> | ->]; fold a.
  - split; lra.
  - split.
    + assert ((inject_Z m1 + 1) * u == a + u) by (unfold a; ring). lra.
    + assert ((inject_Z m1 + 1) * u == a + u) by (unfold a; ring). lra.
Qed.

Lemma normal_bounds (m : positive) :
  Zpos (digits2_pos m) = 53%Z -> (2 ^ 52 <= Zpos m < 2 ^ 53)%Z.
Proof. intro D. pose proof (digits2_pos_bounds m) as B. rewrite D in B. exact B. Qed.

(** Division of normal numbers, away from overflow and underflow. *)
Lemma div_normal (x y : float) (s : bool) (mx my : positive) (ex ey : Z) :
  Fnormal x s mx ex -> Fnormal y false my ey ->
  (-1074 <= ex - ey - 53)%Z -> (ex - ey - 52 < 971)%Z ->
  exists (m : positive) (e : Z),
    Fnormal (x / y)%float s m e
    /\ (ex - ey - 53 <= e <= ex - ey - 51)%Z
    /\ F2Q (Zpos mx) ex / F2Q (Zpos my) ey * (1 - eps) <= F2Q (Zpos m) e
    /\ F2Q (Zpos m) e <= F2Q (Zpos mx) ex / F2Q (Zpos my) ey * (1 + eps).
Proof.
  intros [Hx Dx] [Hy Dy] Hlo Hhi.
  pose proof (normal_bounds mx Dx) as Bx. pose proof (normal_bounds my Dy) as By.
  unfold Fnormal. rewrite div_spec. unfold SF64div, SFdiv. rewrite Hx, Hy.
  unfold SFdiv_core_binary. cbn [Zdigits2]. rewrite Dx, Dy.
  replace (Z.min (fexp prec emax (53 + ex - (53 + ey))) (ex - ey))
    with (ex - ey - 53)%Z
    by (unfold fexp, SpecFloat.emin, prec, emax; lia).
  replace (ex - ey - (ex - ey - 53))%Z with 53%Z by lia.
  cbv zeta. cbv iota.
  rewrite Z.shiftl_mul_pow2 by lia.
  pose proof (Z_div_mod (Zpos mx * 2 ^ 53) (Zpos my) ltac:(lia)) as E.
  destruct (Z.div_eucl (Zpos mx * 2 ^ 53) (Zpos my)) as [q r].
  destruct E as [E Br].
  assert (Bq : (2 ^ 52 <= q < 2 ^ 54)%Z) by nia.
  destruct q as [| qp | qp]; [lia | | lia].
  set (d := Zpos (digits2_pos qp)).
  pose proof (digits2_pos_bounds qp) as Bd. fold d in Bd.
  assert (Hd : (53 <= d <= 54)%Z).
  { split.
    - destruct (Z_lt_le_dec d 53) as [L | L]; [|exact L]. exfalso.
      assert (2 ^ d <= 2 ^ 52)%Z by (apply Z.pow_le_mono_r; lia). lia.
    - destruct (Z_lt_le_dec 54 d) as [L | L]; [|exact L]. exfalso.
      assert (2 ^ 54 <= 2 ^ (d - 1))%Z by (apply Z.pow_le_mono_r; lia). lia. }
  rewrite xorb_false_r.
  destruct (binary_round_aux_normal s qp (ex - ey - 53) (new_location (Zpos my) r))
    as (m' & e' & r' & Eq & Hr & Dm & He); fold d; try lia.
  fold d in Hr, He.
  exists m', e'. split; [split; [exact Eq | exact Dm]|]. split; [lia|].
  apply (round_value qp m' (ex - ey - 53) e' r' d); try assumption; try lia.
  - (* q 2^e' <= x *)
    apply Qle_shift_div_l; [apply F2Q_pos|].
    unfold F2Q.
    assert (P : 2 ^ ex == 2 ^ (ex - ey - 53) * 2 ^ ey * inject_Z (2 ^ 53)).
    { rewrite Qpow2_Z by lia. rewrite <- !Qpow2_add. f_equiv. lia. }
    rewrite P.
    assert (Le : inject_Z (Zpos qp) * inject_Z (Zpos my)
                 <= inject_Z (Zpos mx) * inject_Z (2 ^ 53)).
    { rewrite <- !inject_Z_mult, <- Zle_Qle. lia. }
    pose proof (Qpow2_pos (ex - ey - 53)) as P1. pose proof (Qpow2_pos ey) as P2.
    set (u := 2 ^ (ex - ey - 53)) in *. set (v := 2 ^ ey) in *.
    assert (0 < u * v) by (apply Qmult_lt_0_compat; assumption).
    apply Qle_trans with (inject_Z (Zpos qp) * inject_Z (Zpos my) * (u * v)).
    + apply Qle_lteq. right. ring.
    + apply Qle_trans with (inject_Z (Zpos mx) * inject_Z (2 ^ 53) * (u * v)).
      * apply Qmult_le_compat_r; [exact Le | apply Qlt_le_weak; assumption].
      * apply Qle_lteq. right. ring.
  - apply Qlt_shift_div_r; [apply F2Q_pos|].
    unfold F2Q.
    assert (P : 2 ^ ex == 2 ^ (ex - ey - 53) * 2 ^ ey * inject_Z (2 ^ 53)).
    { rewrite Qpow2_Z by lia. rewrite <- !Qpow2_add. f_equiv. lia. }
    rewrite P.
    assert (Lt : inject_Z (Zpos mx) * inject_Z (2 ^ 53)
                 < inject_Z (Zpos qp + 1) * inject_Z (Zpos my)).
    { rewrite <- !inject_Z_mult, <- Zlt_Qlt. lia. }
    pose proof (Qpow2_pos (ex - ey - 53)) as P1. pose proof (Qpow2_pos ey) as P2.
    set (u := 2 ^ (ex - ey - 53)) in *. set (v := 2 ^ ey) in *.
    assert (0 < u * v) by (apply Qmult_lt_0_compat; assumption).
    apply Qle_lt_trans with (inject_Z (Zpos mx) * inject_Z (2 ^ 53) * (u * v)).
    + apply Qle_lteq. right. ring.
    + apply Qlt_le_trans with (inject_Z (Zpos qp + 1) * inject_Z (Zpos my) * (u * v)).
      * apply Qmult_lt_compat_r; assumption.
      * apply Qle_lteq. right. ring.
Qed.

Lemma digits_le (m : positive) (k : Z) :
  (Zpos m < 2 ^ k)%Z -> (Zpos (digits2_pos m) <= k)%Z.
Proof.
  intro H. pose proof (digits2_pos_bounds m) as B.
  destruct (Z_lt_le_dec k (Zpos (digits2_pos m))) as [L | L]; [|exact L].
  exfalso.
  assert (0 <= k)%Z.
  { destruct (Z_lt_le_dec k 0) as [N | N]; [|exact N].
    rewrite Z.pow_neg_r in H by exact N. lia. }
  assert (2 ^ k <= 2 ^ (Zpos (digits2_pos m) - 1))%Z by (apply Z.pow_le_mono_r; lia).
  lia.
Qed.

Lemma digits_ge (m : positive) (k : Z) :
  (2 ^ k <= Zpos m)%Z -> (k < Zpos (digits2_pos m))%Z.
Proof.
  intro H. pose proof (digits2_pos_bounds m) as B.
  destruct (Z_lt_le_dec k (Zpos (digits2_pos m))) as [L | L]; [exact L|].
  exfalso.
  assert (2 ^ Zpos (digits2_pos m) <= 2 ^ k)%Z by (apply Z.pow_le_mono_r; lia).
  lia.
Qed.

(** Multiplication of positive normal numbers, away from overflow and
    underflow. *)
Lemma mul_normal (x y : float) (mx my : positive) (ex ey : Z) :
  Fnormal x false mx ex -> Fnormal y false my ey ->
  (-1074 <= ex + ey + 52)%Z -> (ex + ey + 53 < 971)%Z ->
  exists (m : positive) (e : Z),
    Fnormal (x * y)%float false m e
    /\ (ex + ey + 52 <= e <= ex + ey + 54)%Z
    /\ F2Q (Zpos mx) ex * F2Q (Zpos my) ey * (1 - eps) <= F2Q (Zpos m) e
    /\ F2Q (Zpos m) e <= F2Q (Zpos mx) ex * F2Q (Zpos my) ey * (1 + eps).
Proof.
  intros [Hx Dx] [Hy Dy] Hlo Hhi.
  pose proof (normal_bounds mx Dx) as Bx. pose proof (normal_bounds my Dy) as By.
  unfold Fnormal. rewrite mul_spec. unfold SF64mul, SFmul. rewrite Hx, Hy.
  cbn [xorb].
  set (d := Zpos (digits2_pos (mx * my))).
  pose proof (digits2_pos_bounds (mx * my)) as Bd. fold d in Bd.
  assert (Bp : (2 ^ 104 <= Zpos (mx * my) < 2 ^ 106)%Z).
  { rewrite Pos2Z.inj_mul. nia. }
  assert (Hd : (105 <= d <= 106)%Z).
  { split.
    - pose proof (digits_ge (mx * my) 104 ltac:(lia)). fold d in H. lia.
    - apply digits_le. lia. }
  destruct (binary_round_aux_normal false (mx * my) (ex + ey) loc_Exact)
    as (m' & e' & r' & Eq & Hr & Dm & He); fold d; try lia.
  fold d in Hr, He.
  exists m', e'. split; [split; [exact Eq | exact Dm]|]. split; [lia|].
  assert (Ex : F2Q (Zpos mx) ex * F2Q (Zpos my) ey == F2Q (Zpos (mx * my)) (ex + ey)).
  { unfold F2Q. rewrite Pos2Z.inj_mul, inject_Z_mult, Qpow2_add. ring. }
  rewrite Ex.
  apply (round_value (mx * my) m' (ex + ey) e' r' d); try assumption; try lia.
  - apply Qle_refl.
  - unfold F2Q. apply Qmult_lt_compat_r; [apply Qpow2_pos|].
    rewrite <- Zlt_Qlt. lia.
Qed.

Lemma Pos_iter_xO (m : positive) (k : positive) :
  Zpos (Pos.iter xO m k) = (Zpos m * 2 ^ Zpos k)%Z.
Proof.
  induction k as [| k IH] using Pos.peano_ind.
  - simpl. lia.
  - rewrite Pos.iter_succ. rewrite Pos2Z.inj_xO, IH, Pos2Z.inj_succ.
    rewrite Z.pow_succ_r by lia. ring.
Qed.

Lemma shl_align_value (m : positive) (e e' : Z) :
  (e' <= e)%Z ->
  Zpos (fst (shl_align m e e')) = (Zpos m * 2 ^ (e - e'))%Z.
Proof.
  intro H. unfold shl_align.
  destruct (e' - e)%Z as [| k | k] eqn:E; cbn [fst].
  - replace (e - e')%Z with 0%Z by lia. lia.
  - lia.
  - rewrite Pos_iter_xO. f_equal. f_equal. lia.
Qed.

(** Rounding of an integer mantissa, away from overflow and from the
    subnormal range. *)
Lemma binary_round_normal (s : bool) (m : positive) (e : Z) :
  let d := Zpos (digits2_pos m) in
  (-1074 <= e + d - 53)%Z -> (e + d - 53 < 971)%Z ->
  exists (m' : positive) (e' : Z),
    binary_round prec emax s m e = S754_finite s m' e'
    /\ Zpos (digits2_pos m') = 53%Z
    /\ (e + d - 53 <= e' <= e + d - 52)%Z
    /\ F2Q (Zpos m) e * (1 - eps) <= F2Q (Zpos m') e'
    /\ F2Q (Zpos m') e' <= F2Q (Zpos m) e * (1 + eps).
Proof.
  intros d Hlo Hhi. unfold binary_round. fold d.
  pose proof (digits2_pos_bounds m) as Bd. fold d in Bd.
  assert (F : fexp prec emax (d + e) = (e + d - 53)%Z)
    by (unfold fexp, SpecFloat.emin, prec, emax; lia).
  rewrite F. unfold shl_align.
  destruct (e + d - 53 - e)%Z as [| k | k] eqn:E.
  - destruct (binary_round_aux_normal s m e loc_Exact)
      as (m' & e' & r' & Eq & Hr & Dm & He); fold d; try lia.
    fold d in Hr, He.
    exists m', e'. split; [exact Eq|]. split; [exact Dm|]. split; [lia|].
    apply (round_value m m' e e' r' d); try assumption; try lia.
    + apply Qle_refl.
    + unfold F2Q. apply Qmult_lt_compat_r; [apply Qpow2_pos|].
      rewrite <- Zlt_Qlt. lia.
  - destruct (binary_round_aux_normal s m e loc_Exact)
      as (m' & e' & r' & Eq & Hr & Dm & He); fold d; try lia.
    fold d in Hr, He.
    exists m', e'. split; [exact Eq|]. split; [exact Dm|]. split; [lia|].
    apply (round_value m m' e e' r' d); try assumption; try lia.
    + apply Qle_refl.
    + unfold F2Q. apply Qmult_lt_compat_r; [apply Qpow2_pos|].
      rewrite <- Zlt_Qlt. lia.
  - (* fewer than 53 digits: the mantissa is shifted left, exactly *)
    set (mz := Pos.iter xO m k).
    assert (Vz : Zpos mz = (Zpos m * 2 ^ Zpos k)%Z) by apply Pos_iter_xO.
    assert (Pk : (0 < 2 ^ Zpos k)%Z) by (apply Z.pow_pos_nonneg; lia).
    assert (Ek : (d + Zpos k = 53)%Z) by lia.
    assert (Dz : Zpos (digits2_pos mz) = 53%Z).
    { apply digits2_pos_unique. rewrite Vz.
      replace (53 - 1)%Z with (d - 1 + Zpos k)%Z by lia.
      rewrite <- Ek.
      rewrite !Z.pow_add_r by lia. nia. }
    destruct (binary_round_aux_normal s mz (e + d - 53) loc_Exact)
      as (m' & e' & r' & Eq & Hr & Dm & He); rewrite ?Dz; try lia.
    rewrite Dz in Hr, He.
    exists m', e'. split; [exact Eq|]. split; [exact Dm|]. split; [lia|].
    assert (Ex : F2Q (Zpos m) e == F2Q (Zpos mz) (e + d - 53)).
    { rewrite Vz, F2Q_shift by lia. unfold F2Q. f_equiv. f_equiv. lia. }
    rewrite Ex.
    apply (round_value mz m' (e + d - 53) e' r' 53); try assumption; try lia.
    + apply normal_bounds. exact Dz.
    + apply Qle_refl.
    + unfold F2Q. apply Qmult_lt_compat_r; [apply Qpow2_pos|].
      rewrite <- Zlt_Qlt. lia.
Qed.

Lemma F2Q_align (m : positive) (e e' : Z) :
  (e' <= e)%Z -> F2Q (Zpos (fst (shl_align m e e'))) e' == F2Q (Zpos m) e.
Proof.
  intro H. rewrite shl_align_value by exact H. rewrite F2Q_shift by lia.
  unfold F2Q. f_equiv. f_equiv. lia.
Qed.

Lemma F2Q_sub (a b e : Z) : F2Q (a - b) e == F2Q a e - F2Q b e.
Proof. unfold F2Q, Z.sub. rewrite inject_Z_plus, inject_Z_opp. ring. Qed.

Lemma F2Q_lt_digits (m : positive) (e k : Z) :
  F2Q (Zpos m) e < 2 ^ k -> (Zpos (digits2_pos m) + e <= k)%Z.
Proof.
  intro H. pose proof (digits2_pos_bounds m) as B.
  set (d := Zpos (digits2_pos m)) in *.
  destruct (Z_lt_le_dec k (d + e)) as [L | L]; [|exact L]. exfalso.
  assert (2 ^ k <= F2Q (Zpos m) e); [|lra].
  apply Qle_trans with (F2Q (2 ^ (d - 1)) e); [|apply F2Q_le; lia].
  unfold F2Q. rewrite Qpow2_Z by lia. rewrite <- Qpow2_add.
  apply Qpower_le_compat_l; [lia | lra].
Qed.

Lemma F2Q_normal_lt (m : positive) (e : Z) :
  Zpos (digits2_pos m) = 53%Z -> F2Q (Zpos m) e < 2 ^ (e + 53).
Proof.
  intro D. pose proof (normal_bounds m D) as B.
  apply Qlt_le_trans with (F2Q (2 ^ 53) e).
  - unfold F2Q. apply Qmult_lt_compat_r; [apply Qpow2_pos|].
    rewrite <- Zlt_Qlt. lia.
  - unfold F2Q. rewrite Qpow2_Z by lia. rewrite <- Qpow2_add.
    apply Qpower_le_compat_l; [lia | lra].
Qed.

(** Subtraction of positive normal numbers, away from overflow and from
    the subnormal range. *)
Lemma sub_normal (x y : float) (mx my : positive) (ex ey : Z) :
  Fnormal x false mx ex -> Fnormal y false my ey ->
  (-1022 <= ex < 970)%Z -> (-1022 <= ey < 970)%Z ->
  let X := F2Q (Zpos mx) ex in
  let Y := F2Q (Zpos my) ey in
  (X == Y /\ Prim2SF (x - y)%float = S754_zero false)
  \/ (exists (s : bool) (m : positive) (e : Z),
        Fnormal (x - y)%float s m e
        /\ (Z.min ex ey - 52 <= e <= Z.max ex ey + 1)%Z
        /\ (if s then Y - X else X - Y) * (1 - eps) <= F2Q (Zpos m) e
        /\ F2Q (Zpos m) e <= (if s then Y - X else X - Y) * (1 + eps)
        /\ 0 < (if s then Y - X else X - Y)).
Proof.
  intros [Hx Dx] [Hy Dy] Rx Ry X Y.
  unfold Fnormal. rewrite sub_spec. unfold SF64sub, SFsub. rewrite Hx, Hy.
  cbn [cond_Zopp]. cbv zeta.
  set (ez := Z.min ex ey).
  set (Mx := fst (shl_align mx ex ez)). set (My := fst (shl_align my ey ez)).
  assert (EX : F2Q (Zpos Mx) ez == X) by (apply F2Q_align; lia).
  assert (EY : F2Q (Zpos My) ez == Y) by (apply F2Q_align; lia).
  assert (ED : F2Q (Zpos Mx - Zpos My) ez == X - Y)
    by (rewrite F2Q_sub, EX, EY; reflexivity).
  assert (ED' : F2Q (Zpos My - Zpos Mx) ez == Y - X)
    by (rewrite F2Q_sub, EX, EY; reflexivity).
  assert (BX : X < 2 ^ (Z.max ex ey + 53)).
  { apply Qlt_le_trans with (2 ^ (ex + 53)); [apply F2Q_normal_lt; exact Dx|].
    apply Qpower_le_compat_l; [lia | lra]. }
  assert (BY : Y < 2 ^ (Z.max ex ey + 53)).
  { apply Qlt_le_trans with (2 ^ (ey + 53)); [apply F2Q_normal_lt; exact Dy|].
    apply Qpower_le_compat_l; [lia | lra]. }
  assert (PX : 0 < X) by apply F2Q_pos. assert (PY : 0 < Y) by apply F2Q_pos.
  destruct (Zpos Mx - Zpos My)%Z as [| p | p] eqn:E; cbn [binary_normalize].
  - left. split; [|reflexivity].
    assert (Z0 : F2Q 0 ez == 0) by (unfold F2Q; change (inject_Z 0) with 0; ring).
    rewrite Z0 in ED. lra.
  - right.
    assert (Dp : (Zpos (digits2_pos p) + ez <= Z.max ex ey + 53)%Z).
    { apply F2Q_lt_digits. rewrite ED. lra. }
    pose proof (Pos2Z.is_pos (digits2_pos p)) as P1.
    destruct (binary_round_normal false p ez) as (m' & e' & Eq & Dm & He & V1 & V2);
      try lia.
    exists false, m', e'. split; [split; [exact Eq | exact Dm]|]. split; [lia|].
    rewrite ED in V1, V2. split; [exact V1|]. split; [exact V2|].
    rewrite <- ED. apply F2Q_pos.
  - right.
    assert (E' : (Zpos My - Zpos Mx)%Z = Zpos p) by lia.
    rewrite E' in ED'.
    assert (Dp : (Zpos (digits2_pos p) + ez <= Z.max ex ey + 53)%Z).
    { apply F2Q_lt_digits. rewrite ED'. lra. }
    pose proof (Pos2Z.is_pos (digits2_pos p)) as P1.
    destruct (binary_round_normal true p ez) as (m' & e' & Eq & Dm & He & V1 & V2);
      try lia.
    exists true, m', e'. split; [split; [exact Eq | exact Dm]|]. split; [lia|].
    rewrite ED' in V1, V2. split; [exact V1|]. split; [exact V2|].
    rewrite <- ED'. apply F2Q_pos.
Qed.

Lemma to_Q_finite (x : float) (s : bool) (m : positive) (e : Z) :
  Prim2SF x = S754_finite s m e ->
  exists q, B64.to_Q x = Some q
            /\ q == (if s then - F2Q (Zpos m) e else F2Q (Zpos m) e).
Proof.
  intro H. unfold B64.to_Q. rewrite H.
  eexists. split; [reflexivity|].
  assert (V : match e with
              | 0%Z => inject_Z (Zpos m)
              | Zpos p => inject_Z (Zpos m * 2 ^ Zpos p)
              | Zneg p => Zpos m # 2 ^ p
              end == F2Q (Zpos m) e).
  { unfold F2Q. destruct e as [| p | p].
    - change (2 ^ 0) with 1. ring.
    - rewrite inject_Z_mult, Qpow2_Z by lia. reflexivity.
    - rewrite Qmake_Qdiv. rewrite Pos2Z.inj_pow. rewrite Qpow2_Z by lia.
      change (Zneg p) with (- Zpos p)%Z. rewrite Qpower_opp. reflexivity. }
  destruct s; rewrite V; reflexivity.
Qed.

Lemma to_Q_zero (x : float) (s : bool) :
  Prim2SF x = S754_zero s -> B64.to_Q x = Some 0.
Proof. intro H. unfold B64.to_Q. rewrite H. reflexivity. Qed.

Lemma F2Q_normal_ge (m : positive) (e : Z) :
  Zpos (digits2_pos m) = 53%Z -> 2 ^ (e + 52) <= F2Q (Zpos m) e.
Proof.
  intro D. pose proof (normal_bounds m D) as B.
  apply Qle_trans with (F2Q (2 ^ 52) e).
  - unfold F2Q. rewrite Qpow2_Z by lia. rewrite <- Qpow2_add.
    apply Qpower_le_compat_l; [lia | lra].
  - apply F2Q_le. lia.
Qed.

(** The order of positive normal numbers is the order of their values. *)
Lemma ltb_normal (x y : float) (mx my : positive) (ex ey : Z) :
  Fnormal x false mx ex -> Fnormal y false my ey ->
  (PrimFloat.ltb x y = true -> F2Q (Zpos mx) ex < F2Q (Zpos my) ey)
  /\ (PrimFloat.ltb x y = false -> F2Q (Zpos my) ey <= F2Q (Zpos mx) ex).
Proof.
  intros [Hx Dx] [Hy Dy]. rewrite ltb_spec. unfold SFltb, SFcompare.
  rewrite Hx, Hy.
  pose proof (F2Q_normal_lt mx ex Dx) as Ux. pose proof (F2Q_normal_ge mx ex Dx) as Lx.
  pose proof (F2Q_normal_lt my ey Dy) as Uy. pose proof (F2Q_normal_ge my ey Dy) as Ly.
  destruct (Z.compare_spec ex ey) as [E | L | G].
  - subst ey. change (PosDef.Pos.compare_cont Eq mx my) with (Pos.compare mx my).
    destruct (Pos.compare_spec mx my) as [E | L | G]; split; try discriminate; intros _.
    + subst my. apply Qle_refl.
    + unfold F2Q. apply Qmult_lt_compat_r; [apply Qpow2_pos|].
      rewrite <- Zlt_Qlt. lia.
    + apply F2Q_le. lia.
  - split; [intros _ | discriminate].
    apply Qlt_le_trans with (2 ^ (ex + 53)); [exact Ux|].
    apply Qle_trans with (2 ^ (ey + 52)); [|exact Ly].
    apply Qpower_le_compat_l; [lia | lra].
  - split; [discriminate | intros _].
    apply Qlt_le_weak.
    apply Qlt_le_trans with (2 ^ (ey + 53)); [exact Uy|].
    apply Qle_trans with (2 ^ (ex + 52)); [|exact Lx].
    apply Qpower_le_compat_l; [lia | lra].
Qed.

Lemma is_nan_Prim2SF (x : float) :
  Prim2SF x <> S754_nan -> is_nan x = false.
Proof.
  intro H. unfold is_nan. rewrite eqb_spec. unfold SFeqb.
  destruct (Prim2SF x) as [s | s | | s m e]; [| | contradiction |].
  - reflexivity.
  - destruct s; reflexivity.
  - simpl. rewrite Z.compare_refl.
    change (PosDef.Pos.compare_cont Eq m m) with (Pos.compare m m).
    rewrite Pos.compare_refl. destruct s; reflexivity.
Qed.

(** [Math.max(0, z)] for a finite [z]. *)
Lemma Math_max_zero (z : float) :
  (forall s, Prim2SF z = S754_zero s -> B64.Math_max 0 z = 0%float)
  /\ (forall m e, Prim2SF z = S754_finite true m e -> B64.Math_max 0 z = 0%float)
  /\ (forall m e, Prim2SF z = S754_finite false m e -> B64.Math_max 0 z = z).
Proof.
  unfold B64.Math_max.
  repeat split; intros; rewrite (is_nan_Prim2SF z) by (rewrite H; discriminate);
    change (is_nan 0 || false)%bool with false; cbv iota;
    rewrite !ltb_spec; unfold SFltb; rewrite H;
    change (Prim2SF 0%float) with (S754_zero false); reflexivity.
Qed.

Lemma inRange_normal (x : float) :
  B64.inRange x = true ->
  exists (m : positive) (e : Z), Fnormal x false m e /\ (-352 <= e <= 248)%Z.
Proof.
  unfold B64.inRange. intro H. apply andb_true_iff in H. destruct H as [Hlo Hhi].
  rewrite leb_spec in Hlo, Hhi. unfold SFleb in Hlo, Hhi.
  change (Prim2SF 0x1p-300%float) with (S754_finite false 4503599627370496 (-352)) in Hlo.
  change (Prim2SF 0x1p+300%float) with (S754_finite false 4503599627370496 248) in Hhi.
  pose proof (Prim2SF_valid x) as V.
  destruct (Prim2SF x) as [s | s | | s m e] eqn:E; try discriminate;
    try (destruct s; discriminate).
  - destruct s; [discriminate|].
    cbn [SFcompare] in Hlo, Hhi.
    assert (L : (-352 <= e)%Z).
    { destruct (Z.compare_spec (-352) e); first [lia | discriminate]. }
    assert (U : (e <= 248)%Z).
    { destruct (Z.compare_spec e 248); first [lia | discriminate]. }
    exists m, e. split; [|lia]. split; [exact E|].
    cbn [SpecFloat.valid_binary] in V. unfold bounded, canonical_mantissa in V.
    apply andb_true_iff in V. destruct V as [V _]. apply Z.eqb_eq in V.
    unfold fexp, SpecFloat.emin, prec, emax in V. lia.
Qed.

Lemma of_Z_0 : B64.of_Z 0 = 0%float.
Proof. reflexivity. Qed.

Lemma of_Z_2 : B64.of_Z 2 = 2%float.
Proof. reflexivity. Qed.

Lemma normal_two : Fnormal 2 false 4503599627370496 (-51).
Proof. split; reflexivity. Qed.

Lemma F2Q_two : F2Q (Zpos 4503599627370496) (-51) == 2.
Proof. reflexivity. Qed.

(** The offset [Math.max(0, (x - y) / 2)] is not negative and, added to
    [y], does not exceed the larger of [x] and [y]. *)
Lemma clamped_offset (x y : float) (mx my : positive) (ex ey : Z) :
  Fnormal x false mx ex -> Fnormal y false my ey ->
  (-1020 <= ex < 970)%Z -> (-1020 <= ey < 970)%Z ->
  exists q : Q,
    B64.to_Q (B64.Math_max (B64.of_Z 0) ((x - y) / B64.of_Z 2)) = Some q
    /\ 0 <= q
    /\ q + F2Q (Zpos my) ey <= Qmax (F2Q (Zpos mx) ex) (F2Q (Zpos my) ey).
Proof.
  intros Nx Ny Rx Ry. rewrite of_Z_0, of_Z_2.
  set (X := F2Q (Zpos mx) ex). set (Y := F2Q (Zpos my) ey).
  pose proof (sub_normal x y mx my ex ey Nx Ny ltac:(lia) ltac:(lia)) as S.
  cbv zeta in S. fold X Y in S.
  destruct S as [[E Z] | (s & m & e & Nt & Re & V1 & V2 & P)].
  - (* equal: the difference is +0 *)
    assert (Hz : Prim2SF ((x - y) / 2) = S754_zero false).
    { rewrite div_spec, Z. destruct normal_two as [T _]. rewrite T. reflexivity. }
    rewrite (proj1 (Math_max_zero _) _ Hz).
    exists 0. split; [reflexivity|]. split; [apply Qle_refl|].
    rewrite Qplus_0_l. apply Q.le_max_r.
  - destruct (div_normal _ _ s m 4503599627370496 e (-51) Nt normal_two
                ltac:(lia) ltac:(lia)) as (mz & ez & [Hz Dz] & _ & W1 & W2).
    rewrite F2Q_two in W1, W2.
    destruct s.
    + (* negative: clamped to 0 *)
      rewrite (proj1 (proj2 (Math_max_zero _)) _ _ Hz).
      exists 0. split; [reflexivity|]. split; [apply Qle_refl|].
      rewrite Qplus_0_l. apply Q.le_max_r.
    + (* positive: half the rounded difference *)
      rewrite (proj2 (proj2 (Math_max_zero _)) _ _ Hz).
      destruct (to_Q_finite _ _ _ _ Hz) as (q & Eq & Vq).
      exists q. split; [exact Eq|]. rewrite Vq.
      pose proof (F2Q_pos mz ez) as Pz. split; [lra|].
      apply Qle_trans with X; [|apply Q.le_max_l].
      set (T := F2Q (Zpos m) e) in *. set (Zv := F2Q (Zpos mz) ez) in *.
      assert (H2 : T / 2 == T * (1 # 2)) by (field).
      rewrite H2 in W2. unfold eps in *. lra.
Qed.

Lemma coverFit_binary64 (srcW srcH targetW targetH : float) :
  B64.inRange srcW = true -> B64.inRange srcH = true ->
  B64.inRange targetW = true -> B64.inRange targetH = true ->
  let r := Minimal.coverFit srcW srcH targetW targetH in
  exists qx qy qw qh W H : Q,
    B64.to_Q (sx r) = Some qx /\ B64.to_Q (sy r) = Some qy
    /\ B64.to_Q (sw r) = Some qw /\ B64.to_Q (sh r) = Some qh
    /\ B64.to_Q srcW = Some W /\ B64.to_Q srcH = Some H
    /\ 0 <= qx /\ 0 <= qy
    /\ qx + qw <= W * (1 + tolerance) /\ qy + qh <= H * (1 + tolerance).
Proof.
  intros RW RH RtW RtH r.
  destruct (inRange_normal _ RW) as (mW & eW & NW & BW).
  destruct (inRange_normal _ RH) as (mH & eH & NH & BH).
  destruct (inRange_normal _ RtW) as (mtW & etW & NtW & BtW).
  destruct (inRange_normal _ RtH) as (mtH & etH & NtH & BtH).
  destruct (div_normal _ _ _ _ _ _ _ NW NH ltac:(lia) ltac:(lia))
    as (ma & ea & Na & Ba & A1 & A2).
  destruct (div_normal _ _ _ _ _ _ _ NtW NtH ltac:(lia) ltac:(lia))
    as (md & ed & Nd & Bd & _ & _).
  destruct (to_Q_finite _ _ _ _ (proj1 NW)) as (W & EW & VW).
  destruct (to_Q_finite _ _ _ _ (proj1 NH)) as (H & EH & VH).
  pose proof (F2Q_pos mW eW) as PW. pose proof (F2Q_pos mH eH) as PH.
  pose proof (F2Q_pos ma ea) as Pa. pose proof (F2Q_pos md ed) as Pd.
  set (Wv := F2Q (Zpos mW) eW) in *. set (Hv := F2Q (Zpos mH) eH) in *.
  set (a := F2Q (Zpos ma) ea) in *. set (d := F2Q (Zpos md) ed) in *.
  assert (A1' : Wv * (1 - eps) <= Hv * a).
  { apply Qle_trans with (Hv * (Wv / Hv * (1 - eps))).
    - apply Qle_lteq. right. field. lra.
    - apply Qmult_le_l; assumption. }
  assert (A2' : Hv * a <= Wv * (1 + eps)).
  { apply Qle_trans with (Hv * (Wv / Hv * (1 + eps))).
    - apply Qmult_le_l; assumption.
    - apply Qle_lteq. right. field. lra. }
  subst r. unfold Minimal.coverFit. cbn [jdiv jgt jmul jsub jmax jlit b64_arith].
  unfold B64.gt.
  destruct (ltb_normal _ _ _ _ _ _ Nd Na) as [Gt Ge]. fold a d in Gt, Ge.
  destruct (PrimFloat.ltb (targetW / targetH) (srcW / srcH)) eqn:G;
    cbn [sx sy sw sh].
  - (* the source is wider *)
    specialize (Gt eq_refl). clear Ge.
    destruct (mul_normal _ _ _ _ _ _ NH Nd ltac:(lia) ltac:(lia))
      as (ms & es & Ns & Bs & _ & S2).
    fold Hv d in S2.
    destruct (clamped_offset _ _ _ _ _ _ NW Ns ltac:(lia) ltac:(lia))
      as (qx & Eqx & Pqx & Bqx).
    destruct (to_Q_finite _ _ _ _ (proj1 Ns)) as (qw & Eqw & Vqw).
    fold Wv in Bqx. set (s := F2Q (Zpos ms) es) in *.
    assert (Bs' : s <= Wv * (1 + eps) * (1 + eps)).
    { apply Qle_trans with (Hv * d * (1 + eps)); [exact S2|].
      apply Qmult_le_compat_r; [|unfold eps; lra].
      apply Qle_trans with (Hv * a); [|exact A2'].
      apply Qlt_le_weak. apply Qmult_lt_l; assumption. }
    exists qx, 0, qw, H, W, H.
    rewrite of_Z_0.
    split; [exact Eqx|]. split; [reflexivity|]. split; [exact Eqw|].
    split; [exact EH|]. split; [exact EW|]. split; [exact EH|].
    split; [exact Pqx|]. split; [apply Qle_refl|].
    rewrite Vqw, VW, VH. fold Wv Hv.
    split.
    + apply Qle_trans with (Qmax Wv s); [exact Bqx|].
      apply Q.max_lub; unfold tolerance, eps in *; lra.
    + unfold tolerance. lra.
  - (* the source is not wider *)
    specialize (Ge eq_refl). clear Gt.
    destruct (div_normal _ _ _ _ _ _ _ NW Nd ltac:(lia) ltac:(lia))
      as (mh & eh & Nh & Bh & _ & S2).
    fold Wv d in S2.
    destruct (clamped_offset _ _ _ _ _ _ NH Nh ltac:(lia) ltac:(lia))
      as (qy & Eqy & Pqy & Bqy).
    destruct (to_Q_finite _ _ _ _ (proj1 Nh)) as (qh & Eqh & Vqh).
    fold Hv in Bqy. set (h := F2Q (Zpos mh) eh) in *.
    assert (Bd' : Wv / d * (1 - eps) <= Hv).
    { apply Qle_trans with (Wv * (1 - eps) / d).
      - apply Qle_lteq. right. field. lra.
      - apply Qle_shift_div_r; [exact Pd|].
        apply Qle_trans with (Hv * a); [exact A1'|].
        apply Qmult_le_l; assumption. }
    exists 0, qy, W, qh, W, H.
    rewrite of_Z_0.
    split; [reflexivity|]. split; [exact Eqy|]. split; [exact EW|].
    split; [exact Eqh|]. split; [exact EW|]. split; [exact EH|].
    split; [apply Qle_refl|]. split; [exact Pqy|].
    rewrite Vqh, VW, VH. fold Wv Hv.
    split.
    + unfold tolerance. lra.
    + apply Qle_trans with (Qmax Hv h); [exact Bqy|].
      set (k := Wv / d) in *.
      apply Q.max_lub; unfold tolerance, eps in *; lra.
Qed.


(** Every whole number from 1 to below 2^299 is a size in range. *)
Lemma of_Z_inRange (z : Z) :
  (1 <= z < 2 ^ 299)%Z -> B64.inRange (B64.of_Z z) = true.
Proof.
  intro Hz. destruct z as [| p | p]; try lia.
  unfold B64.of_Z. cbn [binary_normalize].
  pose proof (digits2_pos_bounds p) as Bd.
  assert (Dp : (1 <= Zpos (digits2_pos p) <= 299)%Z).
  { split; [lia|]. apply digits_le. lia. }
  destruct (binary_round_normal false p 0) as (m & e & Eq & Dm & He & _);
    try lia.
  rewrite Eq.
  assert (V : valid_binary (S754_finite false m e) = true).
  { cbn [SpecFloat.valid_binary]. unfold bounded, canonical_mantissa.
    rewrite Dm. apply andb_true_iff. split.
    - apply Z.eqb_eq. unfold fexp, SpecFloat.emin, prec, emax. lia.
    - apply Z.leb_le. unfold prec, emax. lia. }
  unfold B64.inRange. rewrite !leb_spec, (Prim2SF_SF2Prim _ V).
  change (Prim2SF 0x1p-300%float) with (S754_finite false 4503599627370496 (-352)).
  change (Prim2SF 0x1p+300%float) with (S754_finite false 4503599627370496 248).
  unfold SFleb, SFcompare.
  replace (-352 ?= e)%Z with Lt by (symmetry; apply Z.compare_lt_iff; lia).
  replace (e ?= 248)%Z with Lt by (symmetry; apply Z.compare_lt_iff; lia).
  reflexivity.
Qed.

End RoundingValues.

(** C2: for positive source and target sizes the crop rectangle lies within
    the source up to floating-point rounding. In exact arithmetic the four
    bounds [0 <= sx], [0 <= sy], [sx + sw <= srcW] and [sy + sh <= srcH] hold
    as they stand. In binary64, for sizes from 2^-300 to 2^300, the four
    fields of the crop are finite numbers, neither offset is below zero, and
    the sums [sx + sw] and [sy + sh] of the numbers computed exceed [srcW]
    and [srcH] by at most the relative tolerance 2^-50; every whole number
    of pixels from 1 to below 2^299 is such a size. Whatever the inputs, no
    offset computed in binary64 is below zero. *)
Theorem coverFit_within_bounds :
  (forall srcW srcH targetW targetH : Q,
     (0 < srcW)%Q -> (0 < srcH)%Q -> (0 < targetW)%Q -> (0 < targetH)%Q ->
     let r := Minimal.coverFit srcW srcH targetW targetH in
     (0 <= sx r /\ 0 <= sy r /\ sx r + sw r <= srcW /\ sy r + sh r <= srcH)%Q)
  /\
  (forall srcW srcH targetW targetH : float,
     B64.inRange srcW = true -> B64.inRange srcH = true ->
     B64.inRange targetW = true -> B64.inRange targetH = true ->
     let r := Minimal.coverFit srcW srcH targetW targetH in
     exists qx qy qw qh W H : Q,
       B64.to_Q (sx r) = Some qx /\ B64.to_Q (sy r) = Some qy
       /\ B64.to_Q (sw r) = Some qw /\ B64.to_Q (sh r) = Some qh
       /\ B64.to_Q srcW = Some W /\ B64.to_Q srcH = Some H
       /\ (0 <= qx /\ 0 <= qy
           /\ qx + qw <= W * (1 + tolerance) /\ qy + qh <= H * (1 + tolerance))%Q)
  /\
  (forall z : Z, (1 <= z < 2 ^ 299)%Z -> B64.inRange (B64.of_Z z) = true)
  /\
  (forall srcW srcH targetW targetH : float,
     let r := Minimal.coverFit srcW srcH targetW targetH in
     PrimFloat.ltb (sx r) 0 = false /\ PrimFloat.ltb (sy r) 0 = false).
Proof.
  split; [|split; [|split]].
  - intros srcW srcH targetW targetH HsW HsH HtW HtH r.
    pose proof (dstAspect_pos HtW HtH) as Hd.
    destruct (exact_cases srcW srcH targetW targetH) as [Hwide | Htall].
    + destruct (exact_wide HsH Hwide) as [Er Hlt].
      subst r. rewrite Er. cbn [sx sy sw sh].
      rewrite Qmax_zero_nonneg by (rewrite Qhalf; lra).
      rewrite Qhalf. repeat split; lra.
    + destruct (exact_tall HsH HtW HtH Htall) as [Er Hle].
      subst r. rewrite Er. cbn [sx sy sw sh].
      rewrite Qmax_zero_nonneg by (rewrite Qhalf; lra).
      rewrite Qhalf. repeat split; lra.
  - intros srcW srcH targetW targetH RW RH RtW RtH r.
    destruct (coverFit_binary64 srcW srcH targetW targetH RW RH RtW RtH)
      as (qx & qy & qw & qh & W & H & E1 & E2 & E3 & E4 & E5 & E6 & B).
    exists qx, qy, qw, qh, W, H. repeat (split; [assumption|]). exact B.
  - exact of_Z_inRange.
  - intros srcW srcH targetW targetH r. subst r. unfold Minimal.coverFit.
    destruct (jgt (jdiv srcW srcH) (jdiv targetW targetH)); cbn [sx sy sw sh];
      split; try reflexivity; apply Math_max_zero_not_negative.
Qed.

(** C1 (counterexample): for a 200 by 100 source and the 413 by 591 preset
    the "wider" branch returns [sw = 100 * (413 / 591)] rounded, and neither
    the quotient [sw / sh] computed in binary64 nor the exact ratio of the
    two returned numbers is [413 / 591]. *)
Lemma coverFit_aspect_counterexample :
  let r := cropOf 200 100 413 591 in
  B64.strict_eq (sw r / sh r)%float (B64.of_Z 413 / B64.of_Z 591)%float = false
  /\ exists qw qh : Q,
       B64.to_Q (sw r) = Some qw /\ B64.to_Q (sh r) = Some qh
       /\ ~ (qw / qh == 413 # 591)%Q.
Proof.
  split; [reflexivity|].
  eexists. eexists. split; [reflexivity|]. split; [reflexivity|].
  vm_compute. discriminate.
Qed.

(** C1 (witness): a 1000 by 500 source and a square target. *)
Lemma coverFit_spec_witness :
  let r := (Minimal.coverFit (num := Q) 1000 500 600 600)%Q in
  (sw r / sh r == 600 / 600)%Q.
Proof.
  intro r.
  exact (proj1 (proj2 coverFit_spec 1000 500 600 600
                  eq_refl eq_refl eq_refl eq_refl)%Q).
Defined.

(** C2 (witness): a 500 by 1000 source and a square target in exact
    arithmetic, and a 600 by 448 source with a 600 by 448 target in
    binary64, where the crop height is rounded above 448. *)
Lemma coverFit_within_bounds_witness :
  (let r := (Minimal.coverFit (num := Q) 500 1000 600 600)%Q in
   (0 <= sx r /\ 0 <= sy r /\ sx r + sw r <= 500 /\ sy r + sh r <= 1000)%Q)
  /\
  (let r := cropOf 600 448 600 448 in
   exists qx qy qw qh W H : Q,
     B64.to_Q (sx r) = Some qx /\ B64.to_Q (sy r) = Some qy
     /\ B64.to_Q (sw r) = Some qw /\ B64.to_Q (sh r) = Some qh
     /\ B64.to_Q (B64.of_Z 600) = Some W /\ B64.to_Q (B64.of_Z 448) = Some H
     /\ (0 <= qx /\ 0 <= qy
         /\ qx + qw <= W * (1 + tolerance) /\ qy + qh <= H * (1 + tolerance))%Q).
Proof.
  split.
  - exact (proj1 coverFit_within_bounds 500 1000 600 600
             eq_refl eq_refl eq_refl eq_refl)%Q.
  - exact (proj1 (proj2 coverFit_within_bounds)
             (B64.of_Z 600) (B64.of_Z 448) (B64.of_Z 600) (B64.of_Z 448)
             eq_refl eq_refl eq_refl eq_refl).
Defined.

(** In binary64 the bound can be exceeded by a rounding error: a 600 by 448
    source cropped for a 600 by 448 target. *)
Example crop_overshoots_by_rounding :
  let r := cropOf 600 448 600 448 in
  PrimFloat.ltb (B64.of_Z 448) (sy r + sh r)%float = true
  /\ JS.Number_toString (sy r + sh r)%float = "448.00000000000006".
Proof. split; reflexivity. Qed.

(** Outside the range of sizes the operations overflow or underflow, which
    is not rounding: an infinite target width and height, which are no pixel
    sizes, give a crop whose height and vertical offset are NaN. *)
Example crop_of_infinite_target :
  let r := Minimal.coverFit (B64.of_Z 800) (B64.of_Z 600) infinity infinity in
  B64.inRange infinity = false
  /\ is_nan (sy r) = true /\ is_nan (sh r) = true.
Proof. repeat split. Qed.

(** C3 (counterexample): a 600 by 448 source and a 600 by 448 target have
    equal aspect ratios, [600 / 448 === 600 / 448], yet the crop height
    [600 / (600 / 448)] is not [448]. *)
Lemma coverFit_equal_aspect_counterexample :
  let srcW := B64.of_Z 600 in
  let srcH := B64.of_Z 448 in
  let targetW := B64.of_Z 600 in
  let targetH := B64.of_Z 448 in
  let r := Minimal.coverFit srcW srcH targetW targetH in
  B64.strict_eq (srcW / srcH)%float (targetW / targetH)%float = true
  /\ B64.strict_eq (sh r) srcH = false
  /\ sh r <> srcH
  /\ JS.Number_toString (sh r) = "448.00000000000006".
Proof.
  repeat split; try reflexivity.
  intro E. apply (f_equal (fun x => B64.strict_eq x (B64.of_Z 448))) in E.
  vm_compute in E. discriminate.
Qed.

(** C3 (amended): when [srcW / srcH === targetW / targetH] the "else" branch
    is taken: in binary64 [sx = 0] and [sw = srcW] exactly, while
    [sh = srcW / (targetW / targetH)] and [sy = Math.max(0, (srcH - sh) / 2)];
    in exact arithmetic these two are [srcH] and [0], so the crop is the full
    source. *)
Theorem coverFit_equal_aspect :
  (forall srcW srcH targetW targetH : float,
     B64.strict_eq (srcW / srcH)%float (targetW / targetH)%float = true ->
     let r := Minimal.coverFit srcW srcH targetW targetH in
     (sx r = 0 /\ sw r = srcW
      /\ sh r = srcW / (targetW / targetH)
      /\ sy r = B64.Math_max 0 ((srcH - sh r) / 2))%float)
  /\
  (forall srcW srcH targetW targetH : Q,
     (0 < srcW)%Q -> (0 < srcH)%Q -> (0 < targetW)%Q -> (0 < targetH)%Q ->
     (srcW / srcH == targetW / targetH)%Q ->
     let r := Minimal.coverFit srcW srcH targetW targetH in
     (sx r == 0 /\ sy r == 0 /\ sw r == srcW /\ sh r == srcH)%Q).
Proof.
  split.
  - intros srcW srcH targetW targetH E r. subst r.
    unfold Minimal.coverFit.
    change (jgt (jdiv srcW srcH) (jdiv targetW targetH))
      with (B64.gt (srcW / srcH)%float (targetW / targetH)%float).
    rewrite (strict_eq_not_gt _ _ E). cbn [sx sy sw sh].
    repeat split; reflexivity.
  - intros srcW srcH targetW targetH HsW HsH HtW HtH E r.
    assert (Htall : (srcW / srcH <= targetW / targetH)%Q) by (rewrite E; lra).
    destruct (exact_tall HsH HtW HtH Htall) as [Er Hle].
    subst r. rewrite Er. cbn [sx sy sw sh].
    assert (Hh : (srcW / (targetW / targetH) == srcH)%Q).
    { rewrite <- E. field. split; lra. }
    rewrite Hh.
    rewrite Qmax_zero_nonneg by (rewrite Qhalf; lra).
    repeat split; try reflexivity. field.
Qed.

(** C3 (witness): the 800 by 600 source and 400 by 300 target of the
    specification, in both readings. *)
Lemma coverFit_equal_aspect_witness :
  (let r := cropOf 800 600 400 300 in sx r = 0%float /\ sw r = B64.of_Z 800)
  /\ (let r := (Minimal.coverFit (num := Q) 800 600 400 300)%Q in
      (sx r == 0 /\ sy r == 0 /\ sw r == 800 /\ sh r == 600)%Q).
Proof.
  split.
  - intro r.
    destruct (proj1 coverFit_equal_aspect (B64.of_Z 800) (B64.of_Z 600)
                (B64.of_Z 400) (B64.of_Z 300) eq_refl) as [Hx [Hw _]].
    split; [exact Hx | exact Hw].
  - exact (proj2 coverFit_equal_aspect 800 600 400 300
             eq_refl eq_refl eq_refl eq_refl eq_refl).
Defined.

(** ** The resize pipeline *)

Lemma canvasOps_app (a b : list Effect) :
  canvasOps (a ++ b) = (canvasOps a ++ canvasOps b)%list.
Proof. unfold canvasOps. apply flat_map_app. Qed.

Lemma canvasOps_map (ops : list CanvasOp) : canvasOps (map Canvas ops) = ops.
Proof.
  induction ops as [| op ops IH]; [reflexivity|].
  simpl. f_equal. exact IH.
Qed.

Lemma downloads_app (a b : list Effect) :
  downloads (a ++ b) = (downloads a ++ downloads b)%list.
Proof. unfold downloads. apply flat_map_app. Qed.

Lemma downloads_map (ops : list CanvasOp) : downloads (map Canvas ops) = [].
Proof. induction ops as [| op ops IH]; [reflexivity | exact IH]. Qed.

(** The canvas calls of a resize are its render stage, whatever the encoder
    answers. *)
Lemma Minimal_doResize_canvas (P : Platform) (st : Minimal.State) (bmp : Bitmap) :
  bitmap st = Some bmp ->
  canvasOps (snd (Minimal.doResize P st)) = Minimal.render st bmp.
Proof.
  intro Hb. unfold Minimal.doResize. rewrite Hb.
  destruct (toBlob P _ _ _); cbn [snd];
    rewrite canvasOps_app, canvasOps_map;
    match goal with
    | |- (_ ++ canvasOps ?es)%list = _ =>
        replace (canvasOps es) with (@nil CanvasOp)
          by (destruct (generatedURL st); reflexivity)
    end;
    apply app_nil_r.
Qed.

Lemma Full_doResize_canvas (P : Platform) (st : Full.State) (bmp : Bitmap) :
  bitmap (Full.session st) = Some bmp ->
  canvasOps (snd (Full.doResize P st)) = Full.render st bmp.
Proof.
  intro Hb. unfold Full.doResize. rewrite Hb.
  destruct (toBlob P _ _ _); cbn [snd];
    rewrite canvasOps_app, canvasOps_map;
    match goal with
    | |- (_ ++ canvasOps ?es)%list = _ =>
        replace (canvasOps es) with (@nil CanvasOp)
          by (destruct (generatedURL (Full.session st)); reflexivity)
    end;
    apply app_nil_r.
Qed.

(** The dimension a canvas takes: a fraction is truncated, a negative
    number and a number above 2147483647 give the default, NaN gives 0. *)
Example canvasDimension_samples :
  canvasDimension 300 413 = 413%Z
  /\ canvasDimension 300 1.5 = 1%Z
  /\ canvasDimension 300 0.5 = 0%Z
  /\ canvasDimension 300 (-5) = 300%Z
  /\ canvasDimension 150 (-5) = 150%Z
  /\ canvasDimension 300 2147483647 = 2147483647%Z
  /\ canvasDimension 300 2147483648 = 300%Z
  /\ canvasDimension 300 4294967297.5 = 1%Z
  /\ canvasDimension 300 nan = 0%Z
  /\ canvasDimension 300 infinity = 0%Z.
Proof. repeat split. Qed.

(** A whole number of pixels from 0 to 2147483647 is the dimension the
    canvas takes when it is assigned. *)
Lemma canvasDimension_whole (default : Z) (x : float) (z : Z) :
  (0 <= z <= 2147483647)%Z -> wholeNumber x z -> canvasDimension default x = z.
Proof.
  intros Hz (q & Hq & Eq). unfold canvasDimension, toUnsignedLong.
  unfold B64.to_Q in Hq.
  assert (Hmod : (z mod 2 ^ 32 = z)%Z) by (apply Z.mod_small; lia).
  destruct (Prim2SF x) as [s | s | | s m e]; try discriminate.
  - injection Hq as <-. unfold Qeq in Eq. cbn [Qnum Qden inject_Z] in Eq.
    assert (z = 0)%Z by lia. subst z. reflexivity.
  - injection Hq as <-.
    assert (Hpow : forall p, (0 < 2 ^ Zpos p)%Z)
      by (intro p; apply Z.pow_pos_nonneg; lia).
    assert (Hval : (match e with
                    | Z0 => inject_Z (Zpos m)
                    | Zpos p => inject_Z (Zpos m * 2 ^ Zpos p)
                    | Zneg p => Qmake (Zpos m) (2 ^ p)
                    end > 0)%Q).
    { unfold Qlt. destruct e as [| p | p]; cbn [Qnum Qden inject_Z].
      - lia.
      - specialize (Hpow p). nia.
      - lia. }
    destruct s.
    + exfalso.
      set (v := match e with Z0 => _ | Zpos p => _ | Zneg p => _ end) in *.
      assert (0 <= inject_Z z)%Q by (unfold Qle; cbn [Qnum Qden inject_Z]; lia).
      rewrite <- Eq in H. 
      apply (Qlt_irrefl 0). apply Qlt_le_trans with v; [exact Hval|].
      apply Qopp_le_compat in H. rewrite Qopp_involutive in H. exact H.
    + assert (Ht : (match e with
                    | Zneg p => Zpos m / 2 ^ Zpos p
                    | _ => Zpos m * 2 ^ e
                    end = z)%Z).
      { unfold Qeq in Eq. destruct e as [| p | p]; cbn [Qnum Qden inject_Z] in Eq.
        - lia.
        - change ((Zpos m * 2 ^ Zpos p) * 1 = z * 1)%Z in Eq. lia.
        - rewrite Pos2Z.inj_pow in Eq.
          replace (Zpos m) with (z * 2 ^ Zpos p)%Z by lia.
          apply Z.div_mul. specialize (Hpow p). lia. }
      rewrite Ht, Hmod.
      destruct (z <=? 2147483647)%Z eqn:L; [reflexivity|].
      apply Z.leb_gt in L. lia.
Qed.

(** C4 (amended): in both variants, a resize with a decoded source assigns
    the target width and height to the canvas, and the canvas calls contain
    exactly one [fillRect] followed by exactly one [drawImage], the latter
    drawing the crop onto the rectangle from (0,0) of the target size.
    Whatever the source dimensions, the drawing surface is exactly the target
    size when the target width and height are whole numbers of pixels from 1
    to 2147483647, which every catalog preset is. *)
Theorem doResize_render_stage (P : Platform) (bmp : Bitmap) :
  (forall st : Minimal.State,
     bitmap st = Some bmp ->
     let t := Minimal.getTargetSize st in
     let c := Minimal.coverFit (B64.of_Z (width bmp)) (B64.of_Z (height bmp)) (w t) (h t) in
     let ops := canvasOps (snd (Minimal.doResize P st)) in
     (forall d, surface d ops = (canvasDimension 300 (w t), canvasDimension 150 (h t)))
     /\ (forall zw zh : Z,
           (1 <= zw <= 2147483647)%Z -> (1 <= zh <= 2147483647)%Z ->
           wholeNumber (w t) zw -> wholeNumber (h t) zh ->
           forall d, surface d ops = (zw, zh))
     /\ (forall p, In p Minimal.PRESETS -> Preset.id p <> "custom" ->
           presetId st = Preset.id p ->
           forall d, surface d ops = (Preset.w p, Preset.h p))
     /\ filter (fun op => isFill op || isDraw op)%bool ops
        = [FillRect 0 0 (w t) (h t);
           DrawImage bmp (sx c) (sy c) (sw c) (sh c) 0 0 (w t) (h t)])
  /\
  (forall st : Full.State,
     bitmap (Full.session st) = Some bmp ->
     let t := Full.getTargetSize st in
     let c := Full.coverFit (B64.of_Z (width bmp)) (B64.of_Z (height bmp)) (w t) (h t) in
     let ops := canvasOps (snd (Full.doResize P st)) in
     (forall d, surface d ops = (canvasDimension 300 (w t), canvasDimension 150 (h t)))
     /\ (forall zw zh : Z,
           (1 <= zw <= 2147483647)%Z -> (1 <= zh <= 2147483647)%Z ->
           wholeNumber (w t) zw -> wholeNumber (h t) zh ->
           forall d, surface d ops = (zw, zh))
     /\ (forall p, In p Full.PRESETS -> Preset.id p <> "custom" ->
           presetId (Full.session st) = Preset.id p ->
           forall d, surface d ops = (Preset.w p, Preset.h p))
     /\ filter (fun op => isFill op || isDraw op)%bool ops
        = [FillRect 0 0 (w t) (h t);
           DrawImage bmp (sx c) (sy c) (sw c) (sh c) 0 0 (w t) (h t)]).
Proof.
  split; intros st Hb t c ops; subst ops.
  - rewrite (Minimal_doResize_canvas P st bmp Hb).
    assert (Hs : forall d, surface d (Minimal.render st bmp)
                 = (canvasDimension 300 (w t), canvasDimension 150 (h t)))
      by (intros [d1 d2]; reflexivity).
    split; [exact Hs|]. split; [|split; [|reflexivity]].
    + intros zw zh Hzw Hzh Hw Hh d. rewrite Hs.
      rewrite (canvasDimension_whole 300 (w t) zw), (canvasDimension_whole 150 (h t) zh);
        [reflexivity | lia | exact Hh | lia | exact Hw].
    + intros p Hin Hc Hp d. rewrite Hs. subst t.
      unfold Minimal.getTargetSize. rewrite Hp.
      repeat (destruct Hin as [<- | Hin];
              [first [ exfalso; apply Hc; reflexivity | reflexivity ]|]).
      destruct Hin.
  - rewrite (Full_doResize_canvas P st bmp Hb).
    assert (Hs : forall d, surface d (Full.render st bmp)
                 = (canvasDimension 300 (w t), canvasDimension 150 (h t)))
      by (intros [d1 d2]; reflexivity).
    split; [exact Hs|]. split; [|split; [|reflexivity]].
    + intros zw zh Hzw Hzh Hw Hh d. rewrite Hs.
      rewrite (canvasDimension_whole 300 (w t) zw), (canvasDimension_whole 150 (h t) zh);
        [reflexivity | lia | exact Hh | lia | exact Hw].
    + intros p Hin Hc Hp d. rewrite Hs. subst t.
      unfold Full.getTargetSize. rewrite Hp.
      repeat (destruct Hin as [<- | Hin];
              [first [ exfalso; apply Hc; reflexivity | reflexivity ]|]).
      destruct Hin.
Qed.

(** C4 (witness): a 100 by 80 source, smaller than the custom target of 640
    by 480 pixels. *)
Lemma doResize_render_stage_witness :
  let st := Sample.custom Sample.photo (Sample.raster 100 80) "640" "480" in
  let P := Sample.browser None (Some (mkBlob 9 "image/jpeg")) in
  surface (300, 150)%Z (canvasOps (snd (Minimal.doResize P st)))
  = (640, 480)%Z.
Proof.
  intros st P.
  refine (proj1 (proj2 (proj1 (doResize_render_stage P (Sample.raster 100 80))
                          st eq_refl))
            640%Z 480%Z _ _ _ _ (300, 150)%Z).
  - lia.
  - lia.
  - eexists. split; [vm_compute; reflexivity | vm_compute; reflexivity].
  - eexists. split; [vm_compute; reflexivity | vm_compute; reflexivity].
Defined.

(** C4 (counterexample): with the custom width ["1.5"] the target width is
    1.5, the rectangle filled and drawn onto is 1.5 wide, and the surface is
    1 pixel wide. *)
Lemma doResize_render_stage_counterexample :
  let st := Sample.custom Sample.photo (Sample.raster 800 600) "1.5" "600" in
  let P := Sample.browser None (Some (mkBlob 9 "image/jpeg")) in
  let ops := canvasOps (snd (Minimal.doResize P st)) in
  bitmap st = Some (Sample.raster 800 600)
  /\ w (Minimal.getTargetSize st) = 1.5%float
  /\ surface (300, 150)%Z ops = (1, 600)%Z
  /\ ~ wholeNumber (w (Minimal.getTargetSize st)) (fst (surface (300, 150)%Z ops))
  /\ filter isFill ops = [FillRect 0 0 1.5 600]%float.
Proof.
  repeat split.
  intros (q & Hq & Eq). vm_compute in Hq. injection Hq as <-.
  vm_compute in Eq. discriminate.
Qed.

(** C7: in both variants, a first file whose declared type does not start
    with "image/" only sets the error message: no effect is performed, so no
    decoder is called, and every other cell, among them the stored file, the
    preview, the decoded bitmap and the natural dimensions, keeps its
    value. *)
Theorem handleFiles_rejects_non_image (P : Platform) (f : File) (rest : list File) :
  JS.startsWith (type f) "image/" = false ->
  (forall st : Minimal.State,
     let st' := fst (Minimal.handleFiles P st (Some (f :: rest))) in
     let es := snd (Minimal.handleFiles P st (Some (f :: rest))) in
     st' = setError "Please upload an image file (JPG/PNG/etc)." st
     /\ error st' <> ""
     /\ es = [] /\ filter isDecode es = []
     /\ file st' = file st /\ previewURL st' = previewURL st
     /\ bitmap st' = bitmap st /\ imgNatural st' = imgNatural st)
  /\
  (forall st : Full.State,
     let st' := fst (Full.handleFiles P st (Some (f :: rest))) in
     let es := snd (Full.handleFiles P st (Some (f :: rest))) in
     st' = Full.setError "Please upload an image file (JPG, PNG, HEIC)." st
     /\ error (Full.session st') <> ""
     /\ es = [] /\ filter isDecode es = []
     /\ file (Full.session st') = file (Full.session st)
     /\ previewURL (Full.session st') = previewURL (Full.session st)
     /\ bitmap (Full.session st') = bitmap (Full.session st)
     /\ imgNatural (Full.session st') = imgNatural (Full.session st)
     /\ Full.quality st' = Full.quality st /\ Full.bgColor st' = Full.bgColor st).
Proof.
  intro Ht. split; intros st st' es; subst st' es.
  - unfold Minimal.handleFiles. cbn [hd_error]. rewrite Ht. cbn.
    repeat split; discriminate.
  - unfold Full.handleFiles. cbn [hd_error]. rewrite Ht. cbn.
    repeat split; discriminate.
Qed.

(** C7 (witness): a [text/plain] file offered to a session that already
    holds a decoded photo. *)
Lemma handleFiles_rejects_non_image_witness :
  let st := Sample.loaded Sample.photo (Sample.raster 800 600) in
  let P := Sample.browser (Some (Sample.raster 1 1)) None in
  snd (Minimal.handleFiles P st (Some [Sample.notes])) = []
  /\ bitmap (fst (Minimal.handleFiles P st (Some [Sample.notes])))
     = Some (Sample.raster 800 600).
Proof.
  intros st P.
  destruct (proj1 (handleFiles_rejects_non_image P Sample.notes [] eq_refl) st)
    as (_ & _ & He & _ & _ & _ & Hb & _).
  split; [exact He | exact Hb].
Defined.

Lemma filter_map_Canvas (f : Effect -> bool) (ops : list CanvasOp) :
  (forall op, f (Canvas op) = false) -> filter f (map Canvas ops) = [].
Proof.
  intro Hf. induction ops as [| op ops IH]; [reflexivity|].
  simpl. rewrite Hf. exact IH.
Qed.

(** C8: in both variants, when the encoder hands [null] to the [toBlob]
    callback of a resize with a decoded source, the error message is set, no
    download is triggered, the generated URL keeps its value and no object
    URL is revoked or created, and [busy] is cleared. *)
Theorem doResize_null_blob (P : Platform) (bmp : Bitmap) :
  (forall st : Minimal.State,
     bitmap st = Some bmp ->
     toBlob P (Minimal.render st bmp) (format st) Minimal.quality = None ->
     let st' := fst (Minimal.doResize P st) in
     let es := snd (Minimal.doResize P st) in
     error st' = "Something went wrong while resizing."
     /\ downloads es = []
     /\ generatedURL st' = generatedURL st
     /\ filter isURLEffect es = []
     /\ busy st' = false)
  /\
  (forall st : Full.State,
     bitmap (Full.session st) = Some bmp ->
     toBlob P (Full.render st bmp) (format (Full.session st)) (Full.quality st) = None ->
     let st' := fst (Full.doResize P st) in
     let es := snd (Full.doResize P st) in
     error (Full.session st') = "Something went wrong while resizing."
     /\ downloads es = []
     /\ generatedURL (Full.session st') = generatedURL (Full.session st)
     /\ filter isURLEffect es = []
     /\ busy (Full.session st') = false).
Proof.
  split; intros st Hb Hnull st' es; subst st' es.
  - unfold Minimal.doResize. rewrite Hb, Hnull. cbn [fst snd].
    rewrite downloads_app, downloads_map, filter_app, filter_map_Canvas
      by reflexivity.
    repeat split.
  - unfold Full.doResize. rewrite Hb, Hnull. cbn [fst snd].
    rewrite downloads_app, downloads_map, filter_app, filter_map_Canvas
      by reflexivity.
    repeat split.
Qed.

(** C8 (witness): a second resize, after a first one produced
    [blob:earlier], on a browser whose encoder returns [null]. *)
Lemma doResize_null_blob_witness :
  let st := setGeneratedURL "blob:earlier"
              (Sample.loaded Sample.photo (Sample.raster 800 600)) in
  let P := Sample.browser None None in
  downloads (snd (Minimal.doResize P st)) = []
  /\ generatedURL (fst (Minimal.doResize P st)) = "blob:earlier".
Proof.
  intros st P.
  destruct (proj1 (doResize_null_blob P (Sample.raster 800 600)) st eq_refl eq_refl)
    as (_ & Hd & Hg & _).
  split; [exact Hd | exact Hg].
Defined.

(** With a blob the same resize replaces the URL and downloads. *)
Example doResize_with_blob :
  let st := setGeneratedURL "blob:earlier"
              (Sample.loaded Sample.photo (Sample.raster 800 600)) in
  let P := Sample.browser None (Some (mkBlob 9 "image/jpeg")) in
  downloads (snd (Minimal.doResize P st)) = [("blob:output", "photo_413x531.jpg")]
  /\ generatedURL (fst (Minimal.doResize P st)) = "blob:output"
  /\ filter isURLEffect (snd (Minimal.doResize P st))
     = [RevokeObjectURL "blob:earlier"; CreateObjectURL_blob (mkBlob 9 "image/jpeg")].
Proof. repeat split. Qed.

(** ** The download name *)

Lemma hasDot_lower_app (a b : string) : hasDot (JS.lower (a ++ "." ++ b)) = true.
Proof.
  induction a as [| c a IH]; simpl in *.
  - reflexivity.
  - rewrite IH. apply orb_true_r.
Qed.

Lemma extensions_no_dot (x : string) : In x JS.extensions -> hasDot x = false.
Proof.
  intro Hin. repeat (destruct Hin as [<- | Hin]; [reflexivity|]). destruct Hin.
Qed.

Lemma matchesExtension_iff (s : string) :
  JS.matchesExtension s = true
  <-> exists e, s = String "."%char e /\ In (JS.lower e) JS.extensions.
Proof.
  split.
  - destruct s as [| c e]; [discriminate|]. unfold JS.matchesExtension.
    intro H. apply andb_true_iff in H. destruct H as [Hc He].
    apply Ascii.eqb_eq in Hc. subst c.
    apply existsb_exists in He. destruct He as (x & Hin & Hx).
    apply String.eqb_eq in Hx. subst x.
    exists e. split; [reflexivity | exact Hin].
  - intros (e & -> & Hin). unfold JS.matchesExtension.
    rewrite Ascii.eqb_refl. cbn [andb].
    apply existsb_exists. exists (JS.lower e).
    split; [exact Hin | apply String.eqb_refl].
Qed.

(** A recognised extension at the end of the name is removed, dot
    included. *)
Lemma stripExtension_known (stem e : string) :
  In (JS.lower e) JS.extensions ->
  JS.stripExtension (stem ++ "." ++ e) = stem.
Proof.
  intro Hin. induction stem as [| c stem IH].
  - change ("" ++ "." ++ e) with (String "."%char e).
    unfold JS.stripExtension.
    replace (JS.matchesExtension (String "."%char e)) with true; [reflexivity|].
    symmetry. apply matchesExtension_iff. exists e. split; [reflexivity | exact Hin].
  - change (String c stem ++ "." ++ e) with (String c (stem ++ "." ++ e)).
    cbn [JS.stripExtension].
    destruct (JS.matchesExtension (String c (stem ++ "." ++ e))) eqn:M.
    + apply matchesExtension_iff in M. destruct M as (e' & He' & Hin').
      injection He' as _ He'. subst e'.
      apply extensions_no_dot in Hin'.
      change (hasDot (JS.lower (stem ++ "." ++ e)) = false) in Hin'.
      rewrite hasDot_lower_app in Hin'. discriminate.
    + fold JS.stripExtension. rewrite IH. reflexivity.
Qed.

(** A name that does not end in a recognised extension is kept whole. *)
Lemma stripExtension_other (n : string) :
  (forall stem e, n = stem ++ "." ++ e -> ~ In (JS.lower e) JS.extensions) ->
  JS.stripExtension n = n.
Proof.
  induction n as [| c n IH]; intro H.
  - reflexivity.
  - cbn [JS.stripExtension].
    destruct (JS.matchesExtension (String c n)) eqn:M.
    + apply matchesExtension_iff in M. destruct M as (e & He & Hin).
      exfalso. apply (H "" e); [exact He | exact Hin].
    + fold JS.stripExtension. rewrite IH; [reflexivity|].
      intros stem e -> Hin. apply (H (String c stem) e); [reflexivity | exact Hin].
Qed.

Lemma Minimal_doResize_downloads (P : Platform) (st : Minimal.State)
    (bmp : Bitmap) (blob : Blob) :
  bitmap st = Some bmp ->
  toBlob P (Minimal.render st bmp) (format st) Minimal.quality = Some blob ->
  downloads (snd (Minimal.doResize P st))
  = [(createObjectURL_blob P blob,
      Minimal.downloadName (file st) (w (Minimal.getTargetSize st))
        (h (Minimal.getTargetSize st)) (format st))].
Proof.
  intros Hb Hblob. unfold Minimal.doResize. rewrite Hb, Hblob. cbn [snd].
  rewrite downloads_app, downloads_map.
  destruct (generatedURL st); reflexivity.
Qed.

Lemma Full_doResize_downloads (P : Platform) (st : Full.State)
    (bmp : Bitmap) (blob : Blob) :
  bitmap (Full.session st) = Some bmp ->
  toBlob P (Full.render st bmp) (format (Full.session st)) (Full.quality st) = Some blob ->
  downloads (snd (Full.doResize P st))
  = [(createObjectURL_blob P blob,
      Full.downloadName (file (Full.session st)) (w (Full.getTargetSize st))
        (h (Full.getTargetSize st)) (format (Full.session st)))].
Proof.
  intros Hb Hblob. unfold Full.doResize. rewrite Hb, Hblob. cbn [snd].
  rewrite downloads_app, downloads_map.
  destruct (generatedURL (Full.session st)); reflexivity.
Qed.

(** The shape of the name, for any file, size and format. *)
Lemma downloadName_shape (f : option File) (targetW targetH : float) (mime : string) :
  let original := match f with Some f => name f | None => None end in
  let ext := if mime =? "image/png" then "png" else "jpg" in
  let tail := "_" ++ JS.Number_toString targetW ++ "x"
                  ++ JS.Number_toString targetH ++ "." ++ ext in
  exists base : string,
    Minimal.downloadName f targetW targetH mime = base ++ tail
    /\ (original = None -> base = "passport")
    /\ (forall stem e, original = Some (stem ++ "." ++ e) ->
          In (JS.lower e) JS.extensions ->
          base = if stem =? "" then "passport" else stem)
    /\ (forall n, original = Some n ->
          (forall stem e, n = stem ++ "." ++ e -> ~ In (JS.lower e) JS.extensions) ->
          base = if n =? "" then "passport" else n).
Proof.
  intros original ext tail. unfold Minimal.downloadName. fold original.
  fold ext. fold tail.
  destruct original as [n |].
  - exists (match JS.stripExtension n with EmptyString => "passport" | b => b end).
    split; [reflexivity|]. split; [discriminate|]. split.
    + intros stem e E Hin.
      assert (Hs : JS.stripExtension n = stem).
      { injection E as E. rewrite E. apply stripExtension_known. exact Hin. }
      rewrite Hs. destruct stem; reflexivity.
    + intros n' E Hother. injection E as E. subst n'.
      rewrite (stripExtension_other n Hother).
      destruct n; reflexivity.
  - exists "passport". split; [reflexivity|]. split; [reflexivity|].
    split; discriminate.
Qed.

(** C9 (amended): in both variants, a successful resize triggers one
    download whose name is a base, ["_"], the target width, ["x"], the target
    height, ["."] and ["png"] for [image/png] or ["jpg"] for any other format.
    The base is the original file name without its extension when that
    extension is one of jpg, jpeg, png, heic, webp and bmp in any letter case,
    the whole original name when it ends in no such extension, and
    ["passport"] when there is no original name or nothing is left of it (the
    name is empty, or is an extension alone).  The three cases cover every
    original name, so the base is determined for every file. *)
Theorem doResize_download_name (P : Platform) (bmp : Bitmap) (blob : Blob) :
  (forall st : Minimal.State,
     bitmap st = Some bmp ->
     toBlob P (Minimal.render st bmp) (format st) Minimal.quality = Some blob ->
     let t := Minimal.getTargetSize st in
     let original := match file st with Some f => name f | None => None end in
     let ext := if format st =? "image/png" then "png" else "jpg" in
     let tail := "_" ++ JS.Number_toString (w t) ++ "x"
                     ++ JS.Number_toString (h t) ++ "." ++ ext in
     exists base : string,
       downloads (snd (Minimal.doResize P st))
       = [(createObjectURL_blob P blob, base ++ tail)]
       /\ (original = None -> base = "passport")
       /\ (forall stem e, original = Some (stem ++ "." ++ e) ->
             In (JS.lower e) JS.extensions ->
             base = if stem =? "" then "passport" else stem)
       /\ (forall n, original = Some n ->
             (forall stem e, n = stem ++ "." ++ e -> ~ In (JS.lower e) JS.extensions) ->
             base = if n =? "" then "passport" else n))
  /\
  (forall st : Full.State,
     bitmap (Full.session st) = Some bmp ->
     toBlob P (Full.render st bmp) (format (Full.session st)) (Full.quality st)
     = Some blob ->
     let t := Full.getTargetSize st in
     let original :=
       match file (Full.session st) with Some f => name f | None => None end in
     let ext := if format (Full.session st) =? "image/png" then "png" else "jpg" in
     let tail := "_" ++ JS.Number_toString (w t) ++ "x"
                     ++ JS.Number_toString (h t) ++ "." ++ ext in
     exists base : string,
       downloads (snd (Full.doResize P st))
       = [(createObjectURL_blob P blob, base ++ tail)]
       /\ (original = None -> base = "passport")
       /\ (forall stem e, original = Some (stem ++ "." ++ e) ->
             In (JS.lower e) JS.extensions ->
             base = if stem =? "" then "passport" else stem)
       /\ (forall n, original = Some n ->
             (forall stem e, n = stem ++ "." ++ e -> ~ In (JS.lower e) JS.extensions) ->
             base = if n =? "" then "passport" else n)).
Proof.
  split; intros st Hb Hblob t original ext tail.
  - rewrite (Minimal_doResize_downloads P st bmp blob Hb Hblob).
    destruct (downloadName_shape (file st) (w t) (h t) (format st))
      as (base & Hname & Hrest).
    exists base. split; [|exact Hrest].
    subst t. rewrite Hname. reflexivity.
  - rewrite (Full_doResize_downloads P st bmp blob Hb Hblob).
    destruct (downloadName_shape (file (Full.session st)) (w t) (h t)
                (format (Full.session st))) as (base & Hname & Hrest).
    exists base. split; [|exact Hrest].
    subst t. change Full.downloadName with Minimal.downloadName.
    rewrite Hname. reflexivity.
Qed.

(** C9 (witness): [photo.jpg] resized to the default preset as JPEG. *)
Lemma doResize_download_name_witness :
  let st := Sample.loaded Sample.photo (Sample.raster 800 600) in
  let P := Sample.browser None (Some (mkBlob 9 "image/jpeg")) in
  exists base : string,
    downloads (snd (Minimal.doResize P st))
    = [("blob:output", base ++ "_413x531.jpg")]
    /\ (forall stem e, Some "photo.jpg" = Some (stem ++ "." ++ e) ->
          In (JS.lower e) JS.extensions ->
          base = if stem =? "" then "passport" else stem).
Proof.
  intros st P.
  destruct (proj1 (doResize_download_name P (Sample.raster 800 600)
                     (mkBlob 9 "image/jpeg")) st eq_refl eq_refl)
    as (base & Hd & _ & Hs & _).
  exists base. split; [exact Hd | exact Hs].
Defined.

(** C9 (counterexample): [photo.gif], an accepted [image/gif] file, keeps
    its extension in the download name. *)
Lemma doResize_download_name_counterexample :
  let st := Sample.loaded Sample.animation (Sample.raster 800 600) in
  let P := Sample.browser None (Some (mkBlob 9 "image/jpeg")) in
  JS.startsWith (type Sample.animation) "image/" = true
  /\ downloads (snd (Minimal.doResize P st))
     = [("blob:output", "photo.gif_413x531.jpg")]
  /\ downloads (snd (Minimal.doResize P st))
     <> [("blob:output", "photo_413x531.jpg")].
Proof. repeat split. discriminate. Qed.

(** A file whose name is empty, or is an extension alone, is downloaded
    under the fixed base name. *)
Example downloadName_nothing_left :
  Minimal.downloadName (Some (mkFile (Some "") "image/png" 4)) 413 531 "image/png"
  = "passport_413x531.png"
  /\ Minimal.downloadName (Some (mkFile (Some ".PNG") "image/png" 4)) 413 531 "image/png"
     = "passport_413x531.png"
  /\ Minimal.downloadName (Some (mkFile None "image/png" 4)) 413 531 "image/jpeg"
     = "passport_413x531.jpg".
Proof. repeat split. Qed.

(** ** The target size *)

Lemma orElse_cases (a b : float) :
  (is_nan a = true -> orElse a b = b)
  /\ (is_zero a = true -> orElse a b = b)
  /\ (is_nan a = false -> is_zero a = false -> orElse a b = a).
Proof.
  unfold orElse, B64.truthy.
  repeat split; intros; destruct (is_nan a), (is_zero a);
    try discriminate; reflexivity.
Qed.

Lemma getTargetSize_custom (st : Minimal.State) :
  presetId st = "custom" ->
  Minimal.getTargetSize st
  = {| w := orElse (Number (customW st)) 600;
       h := orElse (Number (customH st)) 600 |}.
Proof. intro Hp. unfold Minimal.getTargetSize. rewrite Hp. reflexivity. Qed.

Lemma getTargetSize_agree (st : Full.State) :
  Full.getTargetSize st = Minimal.getTargetSize (Full.session st).
Proof. reflexivity. Qed.

(** A number that is at least 1 is neither NaN nor zero, so [||] keeps
    it. *)
Lemma leb_one_number (x : float) :
  PrimFloat.leb 1 x = true -> is_nan x = false /\ is_zero x = false.
Proof.
  unfold is_nan, is_zero. rewrite leb_spec, !eqb_spec. unfold SFleb, SFeqb.
  change (Prim2SF 1) with (S754_finite false 4503599627370496 (-52)).
  change (Prim2SF zero) with (S754_zero false).
  destruct (Prim2SF x) as [s | s | | s m e].
  - simpl. discriminate.
  - destruct s; simpl; [discriminate | split; reflexivity].
  - simpl. discriminate.
  - intros _. simpl. rewrite Z.compare_refl.
    change (PosDef.Pos.compare_cont Eq m m) with (Pos.compare m m).
    rewrite Pos.compare_refl. destruct s; split; reflexivity.
Qed.

(** C5 (amended): with the custom preset selected, each custom field is
    converted with [Number], not to an integer: the result is [600] when the
    conversion is NaN, which is the case when the field is a string that is
    not a numeric literal, [600] also when the conversion is zero, and a
    converted number that is at least 1 is returned as it is, whole or not.
    For a catalog preset other than the custom one the entry's width and
    height are returned, exactly. Both variants compute the same size. *)
Theorem getTargetSize_spec (st : Minimal.State) :
  let t := Minimal.getTargetSize st in
  (presetId st = "custom" ->
     (is_nan (Number (customW st)) = true -> w t = 600%float)
     /\ (is_zero (Number (customW st)) = true -> w t = 600%float)
     /\ (PrimFloat.leb 1 (Number (customW st)) = true -> w t = Number (customW st))
     /\ (forall s, customW st = FStr s -> JS.numericValue s = JS.NotNumeric ->
         w t = 600%float)
     /\ (is_nan (Number (customH st)) = true -> h t = 600%float)
     /\ (is_zero (Number (customH st)) = true -> h t = 600%float)
     /\ (PrimFloat.leb 1 (Number (customH st)) = true -> h t = Number (customH st))
     /\ (forall s, customH st = FStr s -> JS.numericValue s = JS.NotNumeric ->
         h t = 600%float))
  /\ (forall p, In p Minimal.PRESETS -> Preset.id p <> "custom" ->
        presetId st = Preset.id p ->
        t = {| w := B64.of_Z (Preset.w p); h := B64.of_Z (Preset.h p) |}
        /\ (exists qw qh,
              B64.to_Q (w t) = Some qw /\ B64.to_Q (h t) = Some qh
              /\ (qw == inject_Z (Preset.w p))%Q /\ (qh == inject_Z (Preset.h p))%Q))
  /\ (forall st' : Full.State,
        Full.session st' = st -> Full.getTargetSize st' = t).
Proof.
  intro t. split; [|split].
  - intro Hp. subst t. rewrite (getTargetSize_custom st Hp). cbn [w h].
    destruct (orElse_cases (Number (customW st)) 600) as (Wn & Wz & Wk).
    destruct (orElse_cases (Number (customH st)) 600) as (Hn & Hz & Hk).
    repeat split; try assumption.
    + intro H1. destruct (leb_one_number _ H1) as [Nn Nz]. exact (Wk Nn Nz).
    + intros s Hs Hv. apply Wn. rewrite Hs. unfold Number, JS.StringToNumber.
      rewrite Hv. reflexivity.
    + intro H1. destruct (leb_one_number _ H1) as [Nn Nz]. exact (Hk Nn Nz).
    + intros s Hs Hv. apply Hn. rewrite Hs. unfold Number, JS.StringToNumber.
      rewrite Hv. reflexivity.
  - intros p Hin Hc Hp. subst t. unfold Minimal.getTargetSize. rewrite Hp.
    repeat (destruct Hin as [<- | Hin];
            [first [ exfalso; apply Hc; reflexivity
                   | split; [reflexivity|];
                     eexists; eexists; repeat split; reflexivity ]|]).
    destruct Hin.
  - intros st' <-. apply getTargetSize_agree.
Qed.

(** C5 (witness): the custom fields ["abc"] and ["1e3"]. *)
Lemma getTargetSize_spec_witness :
  let st := Sample.custom Sample.photo (Sample.raster 800 600) "abc" "1e3" in
  w (Minimal.getTargetSize st) = 600%float
  /\ h (Minimal.getTargetSize st) = 1000%float.
Proof.
  intro st.
  destruct (proj1 (getTargetSize_spec st) eq_refl)
    as (_ & _ & _ & Hw & _ & _ & Hh & _).
  split.
  - exact (Hw "abc" eq_refl eq_refl).
  - exact (Hh eq_refl).
Defined.

(** C5 (counterexample): the custom width ["1.5"] is converted to the number
    1.5, which is not an integer. *)
Lemma getTargetSize_fraction_counterexample :
  let st := Sample.custom Sample.photo (Sample.raster 800 600) "1.5" "600" in
  presetId st = "custom"
  /\ w (Minimal.getTargetSize st) = 1.5%float
  /\ B64.isInteger (w (Minimal.getTargetSize st)) = false.
Proof. repeat split. Qed.

(** What the fallback does guarantee: neither zero nor NaN is passed on. *)
Lemma getTargetSize_custom_truthy (st : Minimal.State) :
  presetId st = "custom" ->
  B64.truthy (w (Minimal.getTargetSize st)) = true
  /\ B64.truthy (h (Minimal.getTargetSize st)) = true.
Proof.
  intro Hp. rewrite (getTargetSize_custom st Hp). cbn [w h]. unfold orElse.
  split.
  - destruct (B64.truthy (Number (customW st))) eqn:E; [exact E | reflexivity].
  - destruct (B64.truthy (Number (customH st))) eqn:E; [exact E | reflexivity].
Qed.

(** C6 (failing input): with the custom width ["-5"] the target width is
    [-5], below 1, and it is this value that the render stage and the crop
    computation receive: the crop of an 800 by 600 source gets the width
    [-5]. *)
Lemma getTargetSize_negative_custom :
  let st := Sample.custom Sample.photo (Sample.raster 800 600) "-5" "600" in
  Minimal.getTargetSize st = {| w := (-5)%float; h := 600%float |}
  /\ PrimFloat.ltb (w (Minimal.getTargetSize st)) 1 = true
  /\ Minimal.render st (Sample.raster 800 600)
     = [SetWidth (-5); SetHeight 600; FillStyle "#ffffff"; FillRect 0 0 (-5) 600;
        ImageSmoothingEnabled true; ImageSmoothingQuality "high";
        DrawImage (Sample.raster 800 600) 402.5 0 (-5) 600 0 0 (-5) 600]%float
  /\ Full.getTargetSize (Sample.full st) = {| w := (-5)%float; h := 600%float |}.
Proof. repeat split. Qed.

(** ** The two variants *)

(** C10: the two variants have the same catalog, compute the same target
    size from the same preset selection and custom fields, compute the same
    crop rectangle from the same source and target sizes in either
    arithmetic, and pass the same arguments to [drawImage]. *)
Theorem variants_agree :
  Full.PRESETS = Minimal.PRESETS
  /\ (forall st : Full.State,
        Full.getTargetSize st = Minimal.getTargetSize (Full.session st))
  /\ (forall (num : Type) (A : JsArith num) (srcW srcH targetW targetH : num),
        Full.coverFit srcW srcH targetW targetH
        = Minimal.coverFit srcW srcH targetW targetH)
  /\ (forall (st : Full.State) (bmp : Bitmap),
        filter isDraw (Full.render st bmp)
        = filter isDraw (Minimal.render (Full.session st) bmp)).
Proof. repeat split. Qed.

(** * Further properties of the handlers *)

(** ** [doResize] *)

(** X1: with no decoded bitmap [doResize] only sets its error message: it
    makes no call at all and, the [try] not being entered, leaves [busy] as
    it was. *)
Theorem doResize_without_bitmap (P : Platform) :
  (forall st : Minimal.State,
     bitmap st = None ->
     Minimal.doResize P st = (setError "Please upload an image first." st, [])
     /\ busy (fst (Minimal.doResize P st)) = busy st)
  /\
  (forall st : Full.State,
     bitmap (Full.session st) = None ->
     Full.doResize P st = (Full.setError "Please upload an image first." st, [])
     /\ busy (Full.session (fst (Full.doResize P st))) = busy (Full.session st)).
Proof.
  split; intros st Hb.
  - unfold Minimal.doResize. rewrite Hb. split; reflexivity.
  - unfold Full.doResize. rewrite Hb. split; reflexivity.
Qed.

(** X1 (witness): the resize handler run on the initial session. *)
Lemma doResize_without_bitmap_witness :
  snd (Minimal.doResize (Sample.browser None None) Sample.initial) = []
  /\ error (fst (Minimal.doResize (Sample.browser None None) Sample.initial))
     = "Please upload an image first.".
Proof.
  destruct (proj1 (doResize_without_bitmap (Sample.browser None None))
              Sample.initial eq_refl) as [E _].
  rewrite E. split; reflexivity.
Defined.

(** X2: on every path and for every browser, [doResize] changes nothing but
    [generatedURL], [busy] and [error]: the file, the preview, the bitmap,
    the natural dimensions, the preset, the custom fields and the format
    (and, in the fuller variant, the quality and the background) keep their
    values. *)
Theorem doResize_frame (P : Platform) :
  (forall st : Minimal.State,
     let st' := fst (Minimal.doResize P st) in
     file st' = file st /\ previewURL st' = previewURL st
     /\ bitmap st' = bitmap st /\ imgNatural st' = imgNatural st
     /\ presetId st' = presetId st /\ customW st' = customW st
     /\ customH st' = customH st /\ format st' = format st)
  /\
  (forall st : Full.State,
     let st' := fst (Full.doResize P st) in
     file (Full.session st') = file (Full.session st)
     /\ previewURL (Full.session st') = previewURL (Full.session st)
     /\ bitmap (Full.session st') = bitmap (Full.session st)
     /\ imgNatural (Full.session st') = imgNatural (Full.session st)
     /\ presetId (Full.session st') = presetId (Full.session st)
     /\ customW (Full.session st') = customW (Full.session st)
     /\ customH (Full.session st') = customH (Full.session st)
     /\ format (Full.session st') = format (Full.session st)
     /\ Full.quality st' = Full.quality st /\ Full.bgColor st' = Full.bgColor st).
Proof.
  split; intros st st'; subst st'.
  - unfold Minimal.doResize.
    destruct (bitmap st) as [bmp |] eqn:Hb; [destruct (toBlob P _ _ _)|];
      cbn [fst]; repeat split; exact Hb.
  - unfold Full.doResize.
    destruct (bitmap (Full.session st)) as [bmp |] eqn:Hb;
      [destruct (toBlob P _ _ _)|];
      cbn [fst]; repeat split; exact Hb.
Qed.

Lemma Minimal_doResize_encoder (P : Platform) (st : Minimal.State) (bmp : Bitmap) :
  bitmap st = Some bmp ->
  filter isToBlob (snd (Minimal.doResize P st))
  = [ToBlob (format st) Minimal.quality].
Proof.
  intro Hb. unfold Minimal.doResize. rewrite Hb.
  destruct (toBlob P _ _ _); cbn [snd];
    rewrite filter_app, filter_map_Canvas by reflexivity;
    [destruct (generatedURL st)|]; reflexivity.
Qed.

Lemma Full_doResize_encoder (P : Platform) (st : Full.State) (bmp : Bitmap) :
  bitmap (Full.session st) = Some bmp ->
  filter isToBlob (snd (Full.doResize P st))
  = [ToBlob (format (Full.session st)) (Full.quality st)].
Proof.
  intro Hb. unfold Full.doResize. rewrite Hb.
  destruct (toBlob P _ _ _); cbn [snd];
    rewrite filter_app, filter_map_Canvas by reflexivity;
    [destruct (generatedURL (Full.session st))|]; reflexivity.
Qed.

Lemma doResize_encode_failure (P : Platform) (bmp : Bitmap) :
  (forall st : Minimal.State,
     bitmap st = Some bmp ->
     toBlob P (Minimal.render st bmp) (format st) Minimal.quality = None ->
     error (fst (Minimal.doResize P st)) = "Something went wrong while resizing."
     /\ downloads (snd (Minimal.doResize P st)) = [])
  /\
  (forall st : Full.State,
     bitmap (Full.session st) = Some bmp ->
     toBlob P (Full.render st bmp) (format (Full.session st)) (Full.quality st) = None ->
     error (Full.session (fst (Full.doResize P st)))
     = "Something went wrong while resizing."
     /\ downloads (snd (Full.doResize P st)) = []).
Proof.
  split; intros st Hb E.
  - unfold Minimal.doResize. rewrite Hb, E. cbn [fst snd].
    rewrite downloads_app, downloads_map. split; reflexivity.
  - unfold Full.doResize. rewrite Hb, E. cbn [fst snd].
    rewrite downloads_app, downloads_map. split; reflexivity.
Qed.

(** X3: a resize with a decoded source always ends with [busy] cleared and
    has asked the encoder exactly once, for the selected format, with the
    quality 0.92 in the minimal variant and the slider's value in the fuller
    one; it ends without an error message exactly when it triggered a
    download, and then it triggered exactly one. *)
Theorem doResize_outcome (P : Platform) (bmp : Bitmap) :
  (forall st : Minimal.State,
     bitmap st = Some bmp ->
     let st' := fst (Minimal.doResize P st) in
     let es := snd (Minimal.doResize P st) in
     busy st' = false
     /\ filter isToBlob es = [ToBlob (format st) Minimal.quality]
     /\ JS.Number_toString Minimal.quality = "0.92"
     /\ (error st' = "" <-> downloads es <> [])
     /\ (List.length (downloads es) <= 1)%nat)
  /\
  (forall st : Full.State,
     bitmap (Full.session st) = Some bmp ->
     let st' := fst (Full.doResize P st) in
     let es := snd (Full.doResize P st) in
     busy (Full.session st') = false
     /\ filter isToBlob es = [ToBlob (format (Full.session st)) (Full.quality st)]
     /\ (error (Full.session st') = "" <-> downloads es <> [])
     /\ (List.length (downloads es) <= 1)%nat).
Proof.
  split; intros st Hb st' es; subst st' es.
  - split; [|split; [apply (Minimal_doResize_encoder P st bmp Hb)|split; [reflexivity|]]].
    + unfold Minimal.doResize. rewrite Hb. destruct (toBlob P _ _ _); reflexivity.
    + destruct (toBlob P (Minimal.render st bmp) (format st) Minimal.quality)
        as [blob |] eqn:E.
      * rewrite (Minimal_doResize_downloads P st bmp blob Hb E).
        unfold Minimal.doResize. rewrite Hb, E. cbn.
        repeat split; try discriminate; auto.
      * destruct (proj1 (doResize_encode_failure P bmp) st Hb E) as (He & Hd).
        rewrite He, Hd. repeat split; try discriminate; auto.
        intro H. contradiction.
  - split; [|split; [apply (Full_doResize_encoder P st bmp Hb)|]].
    + unfold Full.doResize. rewrite Hb. destruct (toBlob P _ _ _); reflexivity.
    + destruct (toBlob P (Full.render st bmp) (format (Full.session st))
                  (Full.quality st)) as [blob |] eqn:E.
      * rewrite (Full_doResize_downloads P st bmp blob Hb E).
        unfold Full.doResize. rewrite Hb, E. cbn.
        repeat split; try discriminate; auto.
      * destruct (proj2 (doResize_encode_failure P bmp) st Hb E) as (He & Hd).
        rewrite He, Hd. repeat split; try discriminate; auto.
        intro H. contradiction.
Qed.

(** X3 (witness): the default preset on a browser that encodes. *)
Lemma doResize_outcome_witness :
  let st := Sample.loaded Sample.photo (Sample.raster 800 600) in
  let P := Sample.browser None (Some (mkBlob 9 "image/jpeg")) in
  busy (fst (Minimal.doResize P st)) = false
  /\ filter isToBlob (snd (Minimal.doResize P st))
     = [ToBlob "image/jpeg" Minimal.quality].
Proof.
  intros st P.
  destruct (proj1 (doResize_outcome P (Sample.raster 800 600)) st eq_refl)
    as (Hbusy & Henc & _).
  split; [exact Hbusy | exact Henc].
Defined.

(** X4: when the encoder delivers a blob, the session's [generatedURL]
    becomes the URL created for that blob, which is also the download's
    address; the object-URL calls of the resize are the revocation of the
    previous generated URL, made only if there was one and before the new
    URL is created, and that creation. *)
Theorem doResize_success_urls (P : Platform) (bmp : Bitmap) (blob : Blob) :
  (forall st : Minimal.State,
     bitmap st = Some bmp ->
     toBlob P (Minimal.render st bmp) (format st) Minimal.quality = Some blob ->
     let st' := fst (Minimal.doResize P st) in
     let es := snd (Minimal.doResize P st) in
     generatedURL st' = createObjectURL_blob P blob
     /\ map fst (downloads es) = [generatedURL st']
     /\ error st' = ""
     /\ filter isURLEffect es
        = ((if generatedURL st =? "" then [] else [RevokeObjectURL (generatedURL st)])
           ++ [CreateObjectURL_blob blob])%list)
  /\
  (forall st : Full.State,
     bitmap (Full.session st) = Some bmp ->
     toBlob P (Full.render st bmp) (format (Full.session st)) (Full.quality st)
     = Some blob ->
     let st' := fst (Full.doResize P st) in
     let es := snd (Full.doResize P st) in
     generatedURL (Full.session st') = createObjectURL_blob P blob
     /\ map fst (downloads es) = [generatedURL (Full.session st')]
     /\ error (Full.session st') = ""
     /\ filter isURLEffect es
        = ((if generatedURL (Full.session st) =? ""
            then [] else [RevokeObjectURL (generatedURL (Full.session st))])
           ++ [CreateObjectURL_blob blob])%list).
Proof.
  split; intros st Hb E st' es; subst st' es.
  - rewrite (Minimal_doResize_downloads P st bmp blob Hb E).
    unfold Minimal.doResize. rewrite Hb, E. cbn [fst snd].
    rewrite filter_app, filter_map_Canvas by reflexivity.
    destruct (generatedURL st); repeat split.
  - rewrite (Full_doResize_downloads P st bmp blob Hb E).
    unfold Full.doResize. rewrite Hb, E. cbn [fst snd].
    rewrite filter_app, filter_map_Canvas by reflexivity.
    destruct (generatedURL (Full.session st)); repeat split.
Qed.

(** X4 (witness): a second resize, after [blob:earlier]. *)
Lemma doResize_success_urls_witness :
  let st := setGeneratedURL "blob:earlier"
              (Sample.loaded Sample.photo (Sample.raster 800 600)) in
  let P := Sample.browser None (Some (mkBlob 9 "image/jpeg")) in
  generatedURL (fst (Minimal.doResize P st)) = "blob:output"
  /\ filter isURLEffect (snd (Minimal.doResize P st))
     = [RevokeObjectURL "blob:earlier"; CreateObjectURL_blob (mkBlob 9 "image/jpeg")].
Proof.
  intros st P.
  destruct (proj1 (doResize_success_urls P (Sample.raster 800 600)
                     (mkBlob 9 "image/jpeg")) st eq_refl eq_refl)
    as (Hg & _ & _ & Hu).
  split; [exact Hg | exact Hu].
Defined.

(** X5: the resize button is enabled exactly when the session is not busy
    and holds a bitmap; pressed while enabled, [doResize] never answers
    "Please upload an image first." but runs its render stage, and
    afterwards, whatever the encoder did, the button is enabled again. *)
Theorem resize_button (P : Platform) (st : Minimal.State) :
  (resizeDisabled st = false <-> busy st = false /\ bitmap st <> None)
  /\ (resizeDisabled st = false ->
        error (fst (Minimal.doResize P st)) <> "Please upload an image first."
        /\ (exists bmp, bitmap st = Some bmp
              /\ canvasOps (snd (Minimal.doResize P st)) = Minimal.render st bmp)
        /\ resizeDisabled (fst (Minimal.doResize P st)) = false)
  /\ (forall st' : Full.State, Full.session st' = st ->
        resizeDisabled st = false ->
        error (Full.session (fst (Full.doResize P st')))
        <> "Please upload an image first."
        /\ resizeDisabled (Full.session (fst (Full.doResize P st'))) = false).
Proof.
  unfold resizeDisabled. split; [|split].
  - split.
    + intro H. apply orb_false_iff in H. destruct H as [Hbusy Hm].
      split; [exact Hbusy|]. destruct (bitmap st); discriminate.
    + intros [Hbusy Hm]. rewrite Hbusy.
      destruct (bitmap st); [reflexivity | exfalso; apply Hm; reflexivity].
  - intro Hd. destruct (busy st) eqn:Hbusy; [discriminate|].
    destruct (bitmap st) as [bmp |] eqn:Hb; [|discriminate].
    split; [|split].
    + unfold Minimal.doResize. rewrite Hb.
      destruct (toBlob P _ _ _); cbn; discriminate.
    + exists bmp. split; [reflexivity|]. apply Minimal_doResize_canvas. exact Hb.
    + unfold Minimal.doResize. rewrite Hb.
      destruct (toBlob P _ _ _); cbn; rewrite Hb; reflexivity.
  - intros st' <- Hd.
    destruct (busy (Full.session st')) eqn:Hbusy; [discriminate|].
    destruct (bitmap (Full.session st')) as [bmp |] eqn:Hb; [|discriminate].
    unfold Full.doResize. rewrite Hb.
    destruct (toBlob P _ _ _); cbn; rewrite Hb; split;
      try discriminate; reflexivity.
Qed.

(** X5 (witness): a session holding a decoded photo. *)
Lemma resize_button_witness :
  let st := Sample.loaded Sample.photo (Sample.raster 800 600) in
  resizeDisabled (fst (Minimal.doResize (Sample.browser None None) st)) = false.
Proof.
  intro st.
  destruct (proj1 (proj2 (resize_button (Sample.browser None None) st)) eq_refl)
    as (_ & _ & H).
  exact H.
Defined.

(** X6: the render stages of the two variants differ only in the fill: the
    fuller variant wraps it in [save]/[restore] and uses the chosen colour;
    with the colour [#ffffff] and those two calls left out, its calls are
    those of the minimal variant, in the same order and with the same
    arguments. *)
Theorem render_variants (st : Full.State) (bmp : Bitmap) :
  Full.bgColor st = "#ffffff" ->
  filter (fun op => negb (isSaveRestore op)) (Full.render st bmp)
  = Minimal.render (Full.session st) bmp.
Proof.
  intro Hc. unfold Full.render, Minimal.render. rewrite Hc. reflexivity.
Qed.

(** X6 (witness): the fuller variant with its initial colour. *)
Lemma render_variants_witness :
  let st := Sample.full (Sample.loaded Sample.photo (Sample.raster 800 600)) in
  filter (fun op => negb (isSaveRestore op)) (Full.render st (Sample.raster 800 600))
  = Minimal.render (Full.session st) (Sample.raster 800 600).
Proof.
  intro st. exact (render_variants st (Sample.raster 800 600) eq_refl).
Defined.

(** ** [handleFiles] *)

(** The accepted path of [handleFiles] in terms of the decoder chain. *)
Lemma Minimal_handleFiles_accept (P : Platform) (st : Minimal.State)
    (f : File) (rest : list File) :
  JS.startsWith (type f) "image/" = true ->
  Minimal.handleFiles P st (Some (f :: rest))
  = let st3 := setPreviewURL (createObjectURL_file P f)
                 (setFile (Some f) (setError "" st)) in
    match decoded P f with
    | Some b =>
        (setImgNatural (width b, height b) (setBitmap (Some b) st3),
         CreateObjectURL_file f :: decodeCalls P f)
    | None =>
        (setError "Failed to load image. Try another file." st3,
         (CreateObjectURL_file f :: decodeCalls P f ++ [ConsoleError])%list)
    end.
Proof.
  intro Ht. unfold Minimal.handleFiles, decoded, decodeCalls.
  cbn [hd_error]. rewrite Ht. cbn [negb].
  destruct (hasCreateImageBitmap P).
  - destruct (createImageBitmap P f true); [reflexivity|].
    destruct (createImageBitmap P f false); reflexivity.
  - destruct (loadImageBitmapFallback P (createObjectURL_file P f)); reflexivity.
Qed.

(** The fuller variant's [handleFiles] does to its session what the minimal
    one does, except for the wording of the rejection. *)
Lemma Full_handleFiles_accept (P : Platform) (st : Full.State)
    (f : File) (rest : list File) :
  JS.startsWith (type f) "image/" = true ->
  Full.handleFiles P st (Some (f :: rest))
  = (Full.mkState (fst (Minimal.handleFiles P (Full.session st) (Some (f :: rest))))
       (Full.quality st) (Full.bgColor st),
     snd (Minimal.handleFiles P (Full.session st) (Some (f :: rest)))).
Proof.
  intro Ht. unfold Full.handleFiles, Minimal.handleFiles.
  cbn [hd_error]. rewrite Ht. cbn [negb].
  destruct (hasCreateImageBitmap P).
  - destruct (createImageBitmap P f true); [reflexivity|].
    destruct (createImageBitmap P f false); reflexivity.
  - destruct (loadImageBitmapFallback P (createObjectURL_file P f)); reflexivity.
Qed.

(** X7: for a first file whose type starts with "image/", [handleFiles]
    stores the file and the preview URL created for it before anything is
    decoded. If the decoder chain yields a bitmap, the bitmap and its width
    and height are stored and the error is cleared; if it does not, the
    error "Failed to load image. Try another file." is set and logged, and
    the previous bitmap and dimensions stay. The generated URL, the preset,
    the custom fields, the format and [busy] are never touched. *)
Theorem handleFiles_accepts (P : Platform) (f : File) (rest : list File) :
  JS.startsWith (type f) "image/" = true ->
  forall st : Minimal.State,
    let st' := fst (Minimal.handleFiles P st (Some (f :: rest))) in
    let es := snd (Minimal.handleFiles P st (Some (f :: rest))) in
    file st' = Some f
    /\ previewURL st' = createObjectURL_file P f
    /\ hd_error es = Some (CreateObjectURL_file f)
    /\ match decoded P f with
       | Some b =>
           bitmap st' = Some b /\ imgNatural st' = (width b, height b)
           /\ error st' = "" /\ ~ In ConsoleError es
       | None =>
           bitmap st' = bitmap st /\ imgNatural st' = imgNatural st
           /\ error st' = "Failed to load image. Try another file."
           /\ last es ConsoleError = ConsoleError /\ In ConsoleError es
       end
    /\ generatedURL st' = generatedURL st /\ presetId st' = presetId st
    /\ customW st' = customW st /\ customH st' = customH st
    /\ format st' = format st /\ busy st' = busy st
    /\ (forall stf : Full.State, Full.session stf = st ->
          Full.session (fst (Full.handleFiles P stf (Some (f :: rest)))) = st'
          /\ snd (Full.handleFiles P stf (Some (f :: rest))) = es).
Proof.
  intros Ht st st' es.
  assert (Hfull : forall stf : Full.State, Full.session stf = st ->
            Full.session (fst (Full.handleFiles P stf (Some (f :: rest)))) = st'
            /\ snd (Full.handleFiles P stf (Some (f :: rest))) = es).
  { intros stf <-. rewrite (Full_handleFiles_accept P stf f rest Ht).
    split; reflexivity. }
  subst st' es. rewrite (Minimal_handleFiles_accept P st f rest Ht) in *.
  cbn zeta in *.
  destruct (decoded P f) as [b |] eqn:D; cbn [fst snd]; cbn [hd_error].
  - repeat split; try reflexivity; try (apply Hfull; assumption).
    intros [H | H]; [discriminate|].
    unfold decodeCalls in H.
    destruct (hasCreateImageBitmap P);
      [destruct (createImageBitmap P f true)|];
      repeat (destruct H as [H | H]; [discriminate|]); exact H.
  - repeat split; try reflexivity; try (apply Hfull; assumption).
    + rewrite app_comm_cons. apply last_last.
    + right. apply in_or_app. right. left. reflexivity.
Qed.

(** X7 (witness): [photo.jpg] on a browser whose decoders all fail, offered
    to a session that holds an earlier bitmap. *)
Lemma handleFiles_accepts_witness :
  let st := Sample.loaded Sample.animation (Sample.raster 800 600) in
  let P := Sample.browser None None in
  file (fst (Minimal.handleFiles P st (Some [Sample.photo]))) = Some Sample.photo
  /\ previewURL (fst (Minimal.handleFiles P st (Some [Sample.photo])))
     = "blob:preview".
Proof.
  intros st P.
  destruct (handleFiles_accepts P Sample.photo [] eq_refl st) as (Hf & Hp & _).
  split; [exact Hf | exact Hp].
Defined.

(** X8: the decoders are tried in a fixed order and no more than needed.
    [createImageBitmap] is first called with the orientation option; it is
    called again without it only when that first call rejected; the [Image]
    loader is used only when [createImageBitmap] does not exist, and then on
    the preview URL. Between one and two decoder calls are made, and a
    bitmap from the first call is the one stored. *)
Theorem handleFiles_decoder_order (P : Platform) (f : File) (rest : list File) :
  JS.startsWith (type f) "image/" = true ->
  forall st : Minimal.State,
    let st' := fst (Minimal.handleFiles P st (Some (f :: rest))) in
    let calls := filter isDecode (snd (Minimal.handleFiles P st (Some (f :: rest)))) in
    calls = decodeCalls P f
    /\ (1 <= List.length calls <= 2)%nat
    /\ (hasCreateImageBitmap P = true ->
          hd_error calls = Some (CreateImageBitmap f true)
          /\ (forall u, ~ In (LoadImage u) calls))
    /\ (forall g, In (CreateImageBitmap g false) calls ->
          g = f /\ hasCreateImageBitmap P = true /\ createImageBitmap P f true = None)
    /\ (forall u, In (LoadImage u) calls ->
          u = previewURL st' /\ hasCreateImageBitmap P = false)
    /\ (forall b, hasCreateImageBitmap P = true ->
          createImageBitmap P f true = Some b -> bitmap st' = Some b).
Proof.
  intros Ht st st' calls. subst st' calls.
  rewrite (Minimal_handleFiles_accept P st f rest Ht). cbn zeta.
  unfold decoded, decodeCalls.
  destruct (hasCreateImageBitmap P) eqn:HasC;
    [destruct (createImageBitmap P f true) as [b |] eqn:C1;
       [|destruct (createImageBitmap P f false) eqn:C2]
    |destruct (loadImageBitmapFallback P (createObjectURL_file P f)) eqn:L];
    cbn;
    (split; [reflexivity|]); (split; [lia|]);
    repeat split; intros; intuition (try discriminate; try congruence).
Qed.

(** X8 (witness): a browser with [createImageBitmap] whose decoders fail:
    both of its variants are tried, in that order. *)
Lemma handleFiles_decoder_order_witness :
  filter isDecode
    (snd (Minimal.handleFiles (Sample.browser None None) Sample.initial
            (Some [Sample.photo])))
  = [CreateImageBitmap Sample.photo true; CreateImageBitmap Sample.photo false].
Proof.
  destruct (handleFiles_decoder_order (Sample.browser None None) Sample.photo []
              eq_refl Sample.initial) as (Hcalls & _).
  rewrite Hcalls. reflexivity.
Defined.

(** [handleFiles] looks at the first file only: the other files of the
    list change neither the resulting session nor the calls made, and a
    missing or empty list changes nothing and makes no call. Both variants. *)
Lemma handleFiles_first_file_only (P : Platform) :
  (forall (st : Minimal.State) (f : File) (rest : list File),
     Minimal.handleFiles P st (Some (f :: rest)) = Minimal.handleFiles P st (Some [f]))
  /\ (forall st : Minimal.State,
        Minimal.handleFiles P st None = (st, [])
        /\ Minimal.handleFiles P st (Some []) = (st, []))
  /\ (forall (st : Full.State) (f : File) (rest : list File),
        Full.handleFiles P st (Some (f :: rest)) = Full.handleFiles P st (Some [f]))
  /\ (forall st : Full.State,
        Full.handleFiles P st None = (st, [])
        /\ Full.handleFiles P st (Some []) = (st, [])).
Proof. repeat split. Qed.

(** X9: a failed decode leaves the session with the new file next to the
    old bitmap, so the next resize draws the previously decoded image and
    names the download after the file that failed to decode. *)
Theorem failed_decode_keeps_previous_bitmap
    (P P' : Platform) (f : File) (old : Bitmap) (blob : Blob) (st : Minimal.State) :
  JS.startsWith (type f) "image/" = true ->
  decoded P f = None ->
  bitmap st = Some old ->
  let st1 := fst (Minimal.handleFiles P st (Some [f])) in
  toBlob P' (Minimal.render st1 old) (format st1) Minimal.quality = Some blob ->
  let es := snd (Minimal.doResize P' st1) in
  let t := Minimal.getTargetSize st in
  let c := Minimal.coverFit (B64.of_Z (width old)) (B64.of_Z (height old)) (w t) (h t) in
  file st1 = Some f /\ bitmap st1 = Some old
  /\ filter isDraw (canvasOps es)
     = [DrawImage old (sx c) (sy c) (sw c) (sh c) 0 0 (w t) (h t)]
  /\ downloads es
     = [(createObjectURL_blob P' blob,
         Minimal.downloadName (Some f) (w t) (h t) (format st))].
Proof.
  intros Ht Hd Hb st1 Hblob es t c.
  assert (E1 : st1 = setError "Failed to load image. Try another file."
                       (setPreviewURL (createObjectURL_file P f)
                          (setFile (Some f) (setError "" st)))).
  { subst st1. rewrite (Minimal_handleFiles_accept P st f [] Ht). cbn zeta.
    rewrite Hd. reflexivity. }
  assert (Hb1 : bitmap st1 = Some old) by (rewrite E1; exact Hb).
  split; [rewrite E1; reflexivity|]. split; [exact Hb1|]. subst es. split.
  - rewrite (Minimal_doResize_canvas P' st1 old Hb1). rewrite E1. reflexivity.
  - rewrite (Minimal_doResize_downloads P' st1 old blob Hb1 Hblob).
    rewrite E1. reflexivity.
Qed.

(** X9 (witness): [photo.jpg] fails to decode in a session that holds the
    bitmap of [photo.gif]; the download is then named after [photo.jpg]. *)
Lemma failed_decode_keeps_previous_bitmap_witness :
  let st := Sample.loaded Sample.animation (Sample.raster 800 600) in
  let st1 := fst (Minimal.handleFiles (Sample.browser None None) st (Some [Sample.photo])) in
  let P' := Sample.browser None (Some (mkBlob 9 "image/jpeg")) in
  bitmap st1 = Some (Sample.raster 800 600)
  /\ downloads (snd (Minimal.doResize P' st1)) = [("blob:output", "photo_413x531.jpg")].
Proof.
  intros st st1 P'.
  destruct (failed_decode_keeps_previous_bitmap (Sample.browser None None) P'
              Sample.photo (Sample.raster 800 600) (mkBlob 9 "image/jpeg") st
              eq_refl eq_refl eq_refl eq_refl) as (_ & Hb & _ & Hd).
  split; [exact Hb | exact Hd].
Defined.

(** ** [onDrop] and [onPaste] *)

(** X10: [onDrop] always calls [preventDefault] and then [stopPropagation]
    on its event. Without a data transfer, without a file list or with an
    empty one it does nothing else; otherwise it does exactly what
    [handleFiles] does with the first dropped file. Both variants. *)
Theorem onDrop_spec (P : Platform) :
  (forall (st : Minimal.State) (dt : option (option (list File))),
     fst (MinimalGlue.onDrop P st dt) = [PreventDefault; StopPropagation]
     /\ match dt with
        | Some (Some (f :: rest)) =>
            snd (MinimalGlue.onDrop P st dt) = Minimal.handleFiles P st (Some [f])
        | _ => snd (MinimalGlue.onDrop P st dt) = (st, [])
        end)
  /\
  (forall (st : Full.State) (dt : option (option (list File))),
     fst (FullGlue.onDrop P st dt) = [PreventDefault; StopPropagation]
     /\ match dt with
        | Some (Some (f :: rest)) =>
            snd (FullGlue.onDrop P st dt) = Full.handleFiles P st (Some [f])
        | _ => snd (FullGlue.onDrop P st dt) = (st, [])
        end).
Proof.
  split; intros st [[[| f rest] |] |]; split; reflexivity.
Qed.

Lemma find_none_all (A : Type) (p : A -> bool) (l : list A) :
  (forall x, In x l -> p x = false) -> find p l = None.
Proof.
  induction l as [| a l IH]; intro H; [reflexivity|].
  simpl. rewrite (H a (or_introl eq_refl)).
  apply IH. intros x Hx. apply H. right. exact Hx.
Qed.

(** X11: a paste without an item whose type starts with "image/" changes
    nothing and reports nothing, whatever else the clipboard holds. A paste
    with such items considers the first of them only: if it yields no file
    nothing happens, and if it yields a file of the item's own type the
    session takes the accepted path of [handleFiles], so a paste never
    produces the "Please upload an image file" rejection. *)
Theorem onPaste_spec (P : Platform) (st : Minimal.State) :
  (MinimalGlue.onPaste P st None = (st, []))
  /\ (forall items,
        (forall i, In i items -> JS.startsWith (itemType i) "image/" = false) ->
        MinimalGlue.onPaste P st (Some items) = (st, []))
  /\ (forall before item after,
        (forall i, In i before -> JS.startsWith (itemType i) "image/" = false) ->
        JS.startsWith (itemType item) "image/" = true ->
        match getAsFile item with
        | None => MinimalGlue.onPaste P st (Some (before ++ item :: after)%list) = (st, [])
        | Some f =>
            MinimalGlue.onPaste P st (Some (before ++ item :: after)%list)
            = Minimal.handleFiles P st (Some [f])
            /\ (type f = itemType item ->
                file (fst (MinimalGlue.onPaste P st (Some (before ++ item :: after)%list)))
                = Some f
                /\ error (fst (MinimalGlue.onPaste P st (Some (before ++ item :: after)%list)))
                   <> "Please upload an image file (JPG/PNG/etc).")
        end).
Proof.
  split; [reflexivity|]. split.
  - intros items H. unfold MinimalGlue.onPaste.
    rewrite (find_none_all _ _ _ H). reflexivity.
  - intros before item after Hbefore Hitem.
    assert (Hfind : find (fun i => JS.startsWith (itemType i) "image/")
                      (before ++ item :: after)%list = Some item).
    { induction before as [| a before IH]; simpl.
      - rewrite Hitem. reflexivity.
      - rewrite (Hbefore a (or_introl eq_refl)).
        apply IH. intros i Hi. apply Hbefore. right. exact Hi. }
    unfold MinimalGlue.onPaste. rewrite Hfind.
    destruct (getAsFile item) as [f |]; [|reflexivity].
    split; [reflexivity|]. intro Hty.
    assert (Ht : JS.startsWith (type f) "image/" = true) by (rewrite Hty; exact Hitem).
    rewrite (Minimal_handleFiles_accept P st f [] Ht). cbn zeta.
    destruct (decoded P f); cbn; split; try reflexivity; discriminate.
Qed.

(** X11 (witness): a clipboard holding text and then an image. *)
Lemma onPaste_spec_witness :
  let text := mkItem "text/plain" None in
  let image := mkItem "image/jpeg" (Some Sample.photo) in
  MinimalGlue.onPaste (Sample.browser None None) Sample.initial (Some [text; image])
  = Minimal.handleFiles (Sample.browser None None) Sample.initial (Some [Sample.photo]).
Proof.
  intros text image.
  assert (Hb : forall i, In i [text] -> JS.startsWith (itemType i) "image/" = false).
  { intros i [<- | []]. reflexivity. }
  exact (proj1 (proj2 (proj2 (onPaste_spec (Sample.browser None None) Sample.initial))
                  [text] image [] Hb eq_refl)).
Defined.

(** ** The cleanup effect *)

Lemma cleanup_In (st : Session) (u : string) :
  In (RevokeObjectURL u) (cleanup st)
  <-> u <> "" /\ (u = previewURL st \/ u = generatedURL st).
Proof.
  unfold cleanup. split.
  - intro H. apply in_app_or in H. destruct H as [H | H].
    + destruct (previewURL st) as [| c s]; [destruct H|].
      destruct H as [H | []]. injection H as <-. split; [discriminate | left; reflexivity].
    + destruct (generatedURL st) as [| c s]; [destruct H|].
      destruct H as [H | []]. injection H as <-. split; [discriminate | right; reflexivity].
  - intros [Hne [-> | ->]]; apply in_or_app.
    + left. destruct (previewURL st); [contradiction | left; reflexivity].
    + right. destruct (generatedURL st); [contradiction | left; reflexivity].
Qed.

(** X12: the cleanup releases every object URL the session lets go of and
    nothing else: on unmount exactly the non-empty URLs held are revoked;
    between two renders nothing is revoked while both URLs stay the same,
    and a preview or generated URL that is replaced is revoked if it was
    not empty. Only [revokeObjectURL] is ever called. *)
Theorem cleanup_releases (prev next : Session) :
  (forall u, In (RevokeObjectURL u) (unmount prev)
             <-> u <> "" /\ (u = previewURL prev \/ u = generatedURL prev))
  /\ (previewURL prev = previewURL next -> generatedURL prev = generatedURL next ->
        afterRender prev next = [])
  /\ (previewURL prev <> previewURL next -> previewURL prev <> "" ->
        In (RevokeObjectURL (previewURL prev)) (afterRender prev next))
  /\ (generatedURL prev <> generatedURL next -> generatedURL prev <> "" ->
        In (RevokeObjectURL (generatedURL prev)) (afterRender prev next))
  /\ (forall e, In e (afterRender prev next) -> exists u, e = RevokeObjectURL u).
Proof.
  split; [intro u; apply cleanup_In|]. unfold afterRender.
  split; [|split; [|split]].
  - intros -> ->. rewrite !String.eqb_refl. reflexivity.
  - intros Hne Hnz.
    destruct (previewURL prev =? previewURL next) eqn:E;
      [apply String.eqb_eq in E; contradiction|].
    cbn [andb]. apply cleanup_In. split; [exact Hnz | left; reflexivity].
  - intros Hne Hnz.
    destruct (generatedURL prev =? generatedURL next) eqn:E;
      [apply String.eqb_eq in E; contradiction|].
    rewrite andb_false_r. apply cleanup_In. split; [exact Hnz | right; reflexivity].
  - intros e He.
    destruct ((previewURL prev =? previewURL next)
              && (generatedURL prev =? generatedURL next))%bool; [destruct He|].
    unfold cleanup in He. apply in_app_or in He. destruct He as [He | He].
    + destruct (previewURL prev); [destruct He|].
      destruct He as [<- | []]. eexists. reflexivity.
    + destruct (generatedURL prev); [destruct He|].
      destruct He as [<- | []]. eexists. reflexivity.
Qed.

(** X12 (witness): a new preview replaces [blob:preview]. *)
Lemma cleanup_releases_witness :
  let prev := Sample.loaded Sample.photo (Sample.raster 800 600) in
  let next := setPreviewURL "blob:second" prev in
  In (RevokeObjectURL "blob:preview") (afterRender prev next).
Proof.
  intros prev next.
  refine (proj1 (proj2 (proj2 (cleanup_releases prev next))) _ _); discriminate.
Defined.

(** X13: the cleanup revokes both URLs of the previous render whenever one
    of them changed. So after a successful resize that produced a new URL
    the preview URL, which the session still holds, is revoked, and the
    previous generated URL is revoked a second time, [doResize] having
    revoked it already; and after a new file was accepted under a new
    preview URL the generated URL, which the session still holds, is
    revoked. *)
Theorem cleanup_revokes_urls_in_use (P : Platform) (st : Minimal.State) :
  (forall bmp blob,
     bitmap st = Some bmp ->
     toBlob P (Minimal.render st bmp) (format st) Minimal.quality = Some blob ->
     createObjectURL_blob P blob <> generatedURL st ->
     let st' := fst (Minimal.doResize P st) in
     (previewURL st <> "" ->
        previewURL st' = previewURL st
        /\ In (RevokeObjectURL (previewURL st')) (afterRender st st'))
     /\ (generatedURL st <> "" ->
           In (RevokeObjectURL (generatedURL st)) (snd (Minimal.doResize P st))
           /\ In (RevokeObjectURL (generatedURL st)) (afterRender st st')))
  /\
  (forall f rest,
     JS.startsWith (type f) "image/" = true ->
     createObjectURL_file P f <> previewURL st ->
     generatedURL st <> "" ->
     let st' := fst (Minimal.handleFiles P st (Some (f :: rest))) in
     generatedURL st' = generatedURL st
     /\ In (RevokeObjectURL (generatedURL st')) (afterRender st st')).
Proof.
  split.
  - intros bmp blob Hb E Hnew st'.
    assert (Hst' : st' = setBusy false (setGeneratedURL (createObjectURL_blob P blob)
                                          (setError "" (setBusy true st)))).
    { subst st'. unfold Minimal.doResize. rewrite Hb, E. reflexivity. }
    assert (Hafter : afterRender st st' = cleanup st).
    { unfold afterRender. rewrite Hst'. cbn [generatedURL setBusy setGeneratedURL].
      destruct (generatedURL st =? createObjectURL_blob P blob) eqn:Q.
      - apply String.eqb_eq in Q. exfalso. apply Hnew. symmetry. exact Q.
      - rewrite andb_false_r. reflexivity. }
    rewrite Hafter. split.
    + intro Hp. split; [rewrite Hst'; reflexivity|].
      apply cleanup_In. split; [rewrite Hst'; exact Hp | left; rewrite Hst'; reflexivity].
    + intro Hg. split.
      * unfold Minimal.doResize. rewrite Hb, E. cbn [snd].
        apply in_or_app. right. apply in_or_app. right. apply in_or_app. left.
        destruct (generatedURL st); [contradiction | left; reflexivity].
      * apply cleanup_In. split; [exact Hg | right; reflexivity].
  - intros f rest Ht Hnew Hg st'.
    assert (Hgen : generatedURL st' = generatedURL st
                   /\ previewURL st' = createObjectURL_file P f).
    { subst st'. rewrite (Minimal_handleFiles_accept P st f rest Ht). cbn zeta.
      destruct (decoded P f); split; reflexivity. }
    destruct Hgen as [Hgen Hprev]. split; [exact Hgen|].
    unfold afterRender. rewrite Hprev.
    destruct (previewURL st =? createObjectURL_file P f) eqn:Q.
    + apply String.eqb_eq in Q. exfalso. apply Hnew. symmetry. exact Q.
    + cbn [andb]. apply cleanup_In. rewrite Hgen.
      split; [exact Hg | right; reflexivity].
Qed.

(** X13 (witness): a first resize in a session that shows a preview. *)
Lemma cleanup_revokes_urls_in_use_witness :
  let st := Sample.loaded Sample.photo (Sample.raster 800 600) in
  let P := Sample.browser None (Some (mkBlob 9 "image/jpeg")) in
  previewURL (fst (Minimal.doResize P st)) = "blob:preview"
  /\ In (RevokeObjectURL "blob:preview") (afterRender st (fst (Minimal.doResize P st))).
Proof.
  intros st P.
  assert (Hnew : createObjectURL_blob P (mkBlob 9 "image/jpeg") <> generatedURL st)
    by discriminate.
  assert (Hp : previewURL st <> "") by discriminate.
  exact (proj1 (proj1 (cleanup_revokes_urls_in_use P st) (Sample.raster 800 600)
                  (mkBlob 9 "image/jpeg") eq_refl eq_refl Hnew) Hp).
Defined.

(** ** Sessions between events *)

Lemma handleFiles_consistent (P : Platform) (st : Minimal.State)
    (files : option (list File)) :
  consistent st -> consistent (fst (Minimal.handleFiles P st files)).
Proof.
  intro Hc. destruct files as [[| f rest] |]; try exact Hc.
  destruct (JS.startsWith (type f) "image/") eqn:Ht.
  - rewrite (Minimal_handleFiles_accept P st f rest Ht). cbn zeta.
    destruct (decoded P f) as [b |]; unfold consistent in *; cbn.
    + split; [reflexivity | discriminate].
    + destruct (bitmap st); [|exact Hc].
      split; [apply Hc | discriminate].
  - unfold Minimal.handleFiles. cbn [hd_error]. rewrite Ht. exact Hc.
Qed.

(** X14: in every session the minimal component can reach from its initial
    state through file selections, drops, pastes, resizes and changes of the
    controls, the natural dimensions shown are those of the decoded bitmap
    (and still 0 by 0 while there is none), a decoded bitmap comes with a
    stored file, and no handler has left [busy] set. *)
Theorem reachable_consistent (st : Minimal.State) :
  MinimalGlue.Reachable st -> consistent st /\ busy st = false.
Proof.
  induction 1 as [| st st' Hreach [IHc IHb] Hstep].
  - split; reflexivity.
  - destruct Hstep as [P files | P dt | P items | P | v | v | v | v];
      try (split; [exact IHc | exact IHb]).
    + split; [apply handleFiles_consistent; exact IHc|].
      destruct files as [[| f rest] |]; try exact IHb.
      destruct (JS.startsWith (type f) "image/") eqn:Ht.
      * rewrite (Minimal_handleFiles_accept P st f rest Ht). cbn zeta.
        destruct (decoded P f); exact IHb.
      * unfold Minimal.handleFiles. cbn [hd_error]. rewrite Ht. exact IHb.
    + destruct dt as [[[| f rest] |] |]; try (split; [exact IHc | exact IHb]).
      cbn [MinimalGlue.onDrop snd].
      split; [apply handleFiles_consistent; exact IHc|].
      destruct (JS.startsWith (type f) "image/") eqn:Ht.
      * rewrite (Minimal_handleFiles_accept P st f rest Ht). cbn zeta.
        destruct (decoded P f); exact IHb.
      * unfold Minimal.handleFiles. cbn [hd_error]. rewrite Ht. exact IHb.
    + unfold MinimalGlue.onPaste.
      destruct (find _ _) as [item |]; [|split; [exact IHc | exact IHb]].
      destruct (getAsFile item) as [f |]; [|split; [exact IHc | exact IHb]].
      split; [apply handleFiles_consistent; exact IHc|].
      destruct (JS.startsWith (type f) "image/") eqn:Ht.
      * rewrite (Minimal_handleFiles_accept P st f [] Ht). cbn zeta.
        destruct (decoded P f); exact IHb.
      * unfold Minimal.handleFiles. cbn [hd_error]. rewrite Ht. exact IHb.
    + unfold Minimal.doResize, consistent in *.
      destruct (bitmap st) as [bmp |] eqn:Hb.
      * destruct (toBlob P _ _ _); cbn; rewrite Hb; split; try exact IHc; reflexivity.
      * cbn. rewrite Hb. split; [exact IHc | exact IHb].
Qed.

(** X14 (witness): the session after selecting [photo.jpg] and resizing. *)
Lemma reachable_consistent_witness :
  let P := Sample.browser (Some (Sample.raster 800 600)) (Some (mkBlob 9 "image/jpeg")) in
  let st1 := fst (Minimal.handleFiles P Sample.initial (Some [Sample.photo])) in
  let st2 := fst (Minimal.doResize P st1) in
  imgNatural st2 = (800, 600)%Z /\ busy st2 = false.
Proof.
  intros P st1 st2.
  assert (R : MinimalGlue.Reachable st2).
  { apply (@MinimalGlue.ReachStep st1 st2).
    - apply (@MinimalGlue.ReachStep Sample.initial st1).
      + apply MinimalGlue.ReachInitial.
      + apply (@MinimalGlue.StepFiles Sample.initial P (Some [Sample.photo])).
    - apply (@MinimalGlue.StepResize st1 P). }
  destruct (reachable_consistent st2 R) as [Hc Hb].
  split; [apply Hc | exact Hb].
Defined.

(** ** The target size, for every session *)

Lemma orElse_truthy (a : float) : B64.truthy (orElse a 600) = true.
Proof.
  unfold orElse. destruct (B64.truthy a) eqn:E; [exact E | reflexivity].
Qed.

(** X15: whatever the preset selection and the custom fields, known id or
    not, neither target dimension is NaN or zero: the two divisions of the
    crop computation never divide by a zero target height. Both variants. *)
Theorem getTargetSize_never_zero :
  (forall st : Minimal.State,
     B64.truthy (w (Minimal.getTargetSize st)) = true
     /\ B64.truthy (h (Minimal.getTargetSize st)) = true)
  /\
  (forall st : Full.State,
     B64.truthy (w (Full.getTargetSize st)) = true
     /\ B64.truthy (h (Full.getTargetSize st)) = true).
Proof.
  assert (Hmin : forall st : Minimal.State,
            B64.truthy (w (Minimal.getTargetSize st)) = true
            /\ B64.truthy (h (Minimal.getTargetSize st)) = true).
  { intro st. unfold Minimal.getTargetSize, Minimal.PRESETS. cbn [find Preset.id].
    repeat match goal with
           | |- context [String.eqb ?a (presetId st)] =>
               destruct (String.eqb a (presetId st))
           end;
      cbn; split; try reflexivity; apply orElse_truthy. }
  split; [exact Hmin|].
  intro st. rewrite getTargetSize_agree. apply Hmin.
Qed.

(** X16: with any preset id other than "custom" the custom fields play no
    part and the target is one of the catalog's sizes, 413 by 531, 413 by
    591 or 600 by 600; an id that is not in the catalog gives the first
    entry's 413 by 531. *)
Theorem getTargetSize_catalog (st : Minimal.State) :
  presetId st <> "custom" ->
  (forall cw ch : Field,
     Minimal.getTargetSize (setCustomH ch (setCustomW cw st)) = Minimal.getTargetSize st)
  /\ In (Minimal.getTargetSize st)
        [mkSize 413 531; mkSize 413 591; mkSize 600 600]
  /\ (~ In (presetId st) (map Preset.id Minimal.PRESETS) ->
        Minimal.getTargetSize st = mkSize 413 531)
  /\ (forall stf : Full.State, Full.session stf = st ->
        Full.getTargetSize stf = Minimal.getTargetSize st).
Proof.
  intro Hc.
  assert (Hne : ("custom" =? presetId st) = false).
  { apply String.eqb_neq. intro E. apply Hc. symmetry. exact E. }
  split; [|split; [|split]].
  - intros cw ch. unfold Minimal.getTargetSize, Minimal.PRESETS.
    cbn [find Preset.id presetId setCustomH setCustomW]. rewrite Hne.
    repeat match goal with
           | |- context [String.eqb ?a (presetId st)] =>
               destruct (String.eqb a (presetId st))
           end; reflexivity.
  - unfold Minimal.getTargetSize, Minimal.PRESETS. cbn [find Preset.id]. rewrite Hne.
    repeat match goal with
           | |- context [String.eqb ?a (presetId st)] =>
               destruct (String.eqb a (presetId st))
           end; cbn; auto.
  - intro Hnot. unfold Minimal.getTargetSize, Minimal.PRESETS. cbn [find Preset.id].
    repeat match goal with
           | |- context [String.eqb ?a (presetId st)] =>
               destruct (String.eqb a (presetId st)) eqn:?
           end; try reflexivity; exfalso; apply Hnot;
      match goal with
      | H : String.eqb ?a (presetId st) = true |- _ =>
          apply String.eqb_eq in H; rewrite <- H; cbn; auto 10
      end.
  - intros stf <-. apply getTargetSize_agree.
Qed.

(** X16 (witness): an id the catalog does not have. *)
Lemma getTargetSize_catalog_witness :
  Minimal.getTargetSize (setPresetId "jp-35x45" Sample.initial) = mkSize 413 531.
Proof.
  assert (Hc : presetId (setPresetId "jp-35x45" Sample.initial) <> "custom")
    by discriminate.
  refine (proj1 (proj2 (proj2 (getTargetSize_catalog _ Hc))) _).
  cbn. intuition discriminate.
Defined.

(** ** Algebra of the crop computation, in exact arithmetic *)

Lemma Qdiv_lt_cross (a b c d : Q) :
  (0 < b -> 0 < d -> (a / b < c / d <-> a * d < c * b))%Q.
Proof.
  intros Hb Hd.
  assert (Hbd : (0 < b * d)%Q) by (apply Qmult_lt_0_compat; assumption).
  rewrite <- (Qmult_lt_r (a / b) (c / d) (b * d) Hbd).
  assert (E1 : (a / b * (b * d) == a * d)%Q) by (field; lra).
  assert (E2 : (c / d * (b * d) == c * b)%Q) by (field; lra).
  rewrite E1, E2. reflexivity.
Qed.

Lemma Qdiv_le_cross (a b c d : Q) :
  (0 < b -> 0 < d -> (a / b <= c / d <-> a * d <= c * b))%Q.
Proof.
  intros Hb Hd.
  assert (Hbd : (0 < b * d)%Q) by (apply Qmult_lt_0_compat; assumption).
  rewrite <- (Qmult_le_r (a / b) (c / d) (b * d) Hbd).
  assert (E1 : (a / b * (b * d) == a * d)%Q) by (field; lra).
  assert (E2 : (c / d * (b * d) == c * b)%Q) by (field; lra).
  rewrite E1, E2. reflexivity.
Qed.

(** The crop as four exact numbers, each branch with its clamp resolved. *)
Lemma exact_crop (srcW srcH targetW targetH : Q) :
  (0 < srcW)%Q -> (0 < srcH)%Q -> (0 < targetW)%Q -> (0 < targetH)%Q ->
  let r := Minimal.coverFit srcW srcH targetW targetH in
  ((targetW * srcH < srcW * targetH ->
      cropEq r (mkCrop ((srcW - srcH * targetW / targetH) / 2) 0
                       (srcH * targetW / targetH) srcH))
   /\ (srcW * targetH <= targetW * srcH ->
         cropEq r (mkCrop 0 ((srcH - srcW * targetH / targetW) / 2)
                          srcW (srcW * targetH / targetW))))%Q.
Proof.
  intros HsW HsH HtW HtH r. split; intro Hc.
  - assert (Hwide : (targetW / targetH < srcW / srcH)%Q)
      by (apply Qdiv_lt_cross; assumption).
    destruct (exact_wide HsH Hwide) as [Er Hlt].
    subst r. rewrite Er. unfold cropEq. cbn [sx sy sw sh].
    rewrite Qmax_zero_nonneg by (rewrite Qhalf; lra).
    repeat split; try reflexivity; field; lra.
  - assert (Htall : (srcW / srcH <= targetW / targetH)%Q)
      by (apply Qdiv_le_cross; assumption).
    destruct (exact_tall HsH HtW HtH Htall) as [Er Hle].
    subst r. rewrite Er. unfold cropEq. cbn [sx sy sw sh].
    rewrite Qmax_zero_nonneg by (rewrite Qhalf; lra).
    repeat split; try reflexivity; field; lra.
Qed.

(** Resolves a goal [cropEq r1 (f r2)] from the normal forms of [r1] and
    [r2]. *)
Ltac crop_normal H1 H2 :=
  let a1 := fresh in let a2 := fresh in let a3 := fresh in let a4 := fresh in
  let b1 := fresh in let b2 := fresh in let b3 := fresh in let b4 := fresh in
  destruct H1 as (a1 & a2 & a3 & a4); destruct H2 as (b1 & b2 & b3 & b4);
  unfold cropEq, scaleCrop, transpose; cbn [sx sy sw sh] in *;
  rewrite a1, a2, a3, a4, b1, b2, b3, b4.

(** X17: cropping is idempotent in exact arithmetic: the crop of a source
    already has the target's aspect ratio, so computing the crop of a source
    of the crop's size for the same target gives that whole source, with
    zero offsets. *)
Theorem coverFit_idempotent (srcW srcH targetW targetH : Q) :
  (0 < srcW)%Q -> (0 < srcH)%Q -> (0 < targetW)%Q -> (0 < targetH)%Q ->
  let r := Minimal.coverFit srcW srcH targetW targetH in
  (0 < sw r /\ 0 < sh r)%Q
  /\ cropEq (Minimal.coverFit (sw r) (sh r) targetW targetH)
            (mkCrop 0%Q 0%Q (sw r) (sh r)).
Proof.
  intros HsW HsH HtW HtH r.
  pose proof (dstAspect_pos HtW HtH) as Hd.
  assert (Hr : (0 < sw r /\ 0 < sh r /\ sw r * targetH == targetW * sh r)%Q).
  { destruct (exact_crop srcW srcH targetW targetH HsW HsH HtW HtH) as [Hwide Htall].
    fold r in Hwide, Htall.
    destruct (Qlt_le_dec (targetW * srcH) (srcW * targetH)) as [Hc | Hc].
    - destruct (Hwide Hc) as (_ & _ & E3 & E4). cbn [sw sh] in E3, E4.
      rewrite E3, E4.
      assert (Hp : (0 < srcH * targetW / targetH)%Q).
      { apply Qdiv_pos; [apply Qmult_lt_0_compat|]; assumption. }
      repeat split; try assumption. field. lra.
    - destruct (Htall Hc) as (_ & _ & E3 & E4). cbn [sw sh] in E3, E4.
      rewrite E3, E4.
      assert (Hp : (0 < srcW * targetH / targetW)%Q).
      { apply Qdiv_pos; [apply Qmult_lt_0_compat|]; assumption. }
      repeat split; try assumption. field. lra. }
  destruct Hr as (Hw & Hh & Ha). split; [split; assumption|].
  destruct (exact_crop (sw r) (sh r) targetW targetH Hw Hh HtW HtH) as [_ Htall].
  assert (Hc : (sw r * targetH <= targetW * sh r)%Q) by (rewrite Ha; lra).
  destruct (Htall Hc) as (E1 & E2 & E3 & E4). cbn [sx sy sw sh] in E1, E2, E3, E4.
  unfold cropEq. cbn [sx sy sw sh]. rewrite E1, E2, E3, E4.
  assert (Hq : (sw r * targetH / targetW == sh r)%Q).
  { rewrite Ha. field. lra. }
  rewrite Hq. repeat split; try reflexivity. field.
Qed.

(** X17 (witness): a 1000 by 500 source and the 413 by 531 preset. *)
Lemma coverFit_idempotent_witness :
  let r := (Minimal.coverFit (num := Q) 1000 500 413 531)%Q in
  cropEq (Minimal.coverFit (sw r) (sh r) 413%Q 531%Q) (mkCrop 0%Q 0%Q (sw r) (sh r)).
Proof.
  exact (proj2 (coverFit_idempotent 1000 500 413 531
                  eq_refl eq_refl eq_refl eq_refl)%Q).
Defined.

(** X18: in exact arithmetic the crop scales with the source: for a source
    [k] times as large in both directions, with the same target, all four
    numbers of the crop are [k] times as large. *)
Theorem coverFit_scales (k srcW srcH targetW targetH : Q) :
  (0 < k)%Q ->
  (0 < srcW)%Q -> (0 < srcH)%Q -> (0 < targetW)%Q -> (0 < targetH)%Q ->
  cropEq (Minimal.coverFit (k * srcW)%Q (k * srcH)%Q targetW targetH)
         (scaleCrop k (Minimal.coverFit srcW srcH targetW targetH)).
Proof.
  intros Hk HsW HsH HtW HtH.
  assert (HkW : (0 < k * srcW)%Q) by (apply Qmult_lt_0_compat; assumption).
  assert (HkH : (0 < k * srcH)%Q) by (apply Qmult_lt_0_compat; assumption).
  destruct (exact_crop srcW srcH targetW targetH HsW HsH HtW HtH) as [Hwide Htall].
  destruct (exact_crop (k * srcW) (k * srcH) targetW targetH HkW HkH HtW HtH)
    as [Hwide' Htall'].
  destruct (Qlt_le_dec (targetW * srcH) (srcW * targetH)) as [Hc | Hc].
  - assert (Hc' : (targetW * (k * srcH) < k * srcW * targetH)%Q).
    { apply (Qmult_lt_l _ _ k Hk) in Hc. lra. }
    specialize (Hwide Hc). specialize (Hwide' Hc').
    crop_normal Hwide' Hwide. repeat split; field; lra.
  - assert (Hc' : (k * srcW * targetH <= targetW * (k * srcH))%Q).
    { apply (Qmult_le_l _ _ k Hk) in Hc. lra. }
    specialize (Htall Hc). specialize (Htall' Hc').
    crop_normal Htall' Htall. repeat split; field; lra.
Qed.

(** X18 (witness): a source twice as large as 1000 by 500. *)
Lemma coverFit_scales_witness :
  cropEq (Minimal.coverFit (2 * 1000)%Q (2 * 500)%Q 413%Q 531%Q)
         (scaleCrop 2 (Minimal.coverFit (num := Q) 1000 500 413 531)%Q).
Proof.
  exact (coverFit_scales 2 1000 500 413 531
           eq_refl eq_refl eq_refl eq_refl eq_refl)%Q.
Defined.

(** X19: in exact arithmetic the computation treats the two axes alike:
    exchanging width and height in both the source and the target exchanges
    them in the crop, ties included. *)
Theorem coverFit_transpose (srcW srcH targetW targetH : Q) :
  (0 < srcW)%Q -> (0 < srcH)%Q -> (0 < targetW)%Q -> (0 < targetH)%Q ->
  cropEq (Minimal.coverFit srcH srcW targetH targetW)
         (transpose (Minimal.coverFit srcW srcH targetW targetH)).
Proof.
  intros HsW HsH HtW HtH.
  destruct (exact_crop srcW srcH targetW targetH HsW HsH HtW HtH) as [Hwide Htall].
  destruct (exact_crop srcH srcW targetH targetW HsH HsW HtH HtW) as [Hwide' Htall'].
  destruct (Qlt_le_dec (targetW * srcH) (srcW * targetH)) as [Hc | Hc].
  - assert (Hc' : (srcH * targetW <= targetH * srcW)%Q) by lra.
    specialize (Hwide Hc). specialize (Htall' Hc').
    crop_normal Htall' Hwide. repeat split; field; lra.
  - destruct (Qlt_le_dec (srcW * targetH) (targetW * srcH)) as [Hs | Hs].
    + assert (Hc' : (targetH * srcW < srcH * targetW)%Q) by lra.
      specialize (Htall Hc). specialize (Hwide' Hc').
      crop_normal Hwide' Htall. repeat split; field; lra.
    + assert (He : (srcW * targetH == targetW * srcH)%Q) by lra.
      assert (Hc' : (srcH * targetW <= targetH * srcW)%Q) by lra.
      specialize (Htall Hc). specialize (Htall' Hc').
      crop_normal Htall' Htall.
      assert (E1 : (srcW * targetH / targetW == srcH)%Q).
      { rewrite He. field. lra. }
      assert (E2 : (srcH * targetW / targetH == srcW)%Q).
      { assert (He' : (srcH * targetW == srcW * targetH)%Q) by lra.
        rewrite He'. field. lra. }
      rewrite E1, E2. repeat split; field.
Qed.

(** X19 (witness): a landscape source with a portrait target, and the
    portrait source with the landscape target. *)
Lemma coverFit_transpose_witness :
  cropEq (Minimal.coverFit (num := Q) 500 1000 531 413)%Q
         (transpose (Minimal.coverFit (num := Q) 1000 500 413 531)%Q).
Proof.
  exact (coverFit_transpose 1000 500 413 531 eq_refl eq_refl eq_refl eq_refl)%Q.
Defined.

(** ** The resize button's text *)

(** X20: the button's text follows the preview URL while its [disabled]
    flag follows the bitmap. So when the first file of a session is accepted
    but cannot be decoded, the button reads "Resize & Download" and is
    disabled, under the message "Failed to load image. Try another file."
    The text is "Upload a picture first" exactly when the session is not
    busy and has no preview. *)
Theorem button_after_failed_decode (P : Platform) (st : Minimal.State)
    (f : File) (rest : list File) :
  (MinimalGlue.resizeLabel st = "Upload a picture first"
   <-> busy st = false /\ previewURL st = "")
  /\ (JS.startsWith (type f) "image/" = true ->
      decoded P f = None ->
      bitmap st = None -> busy st = false ->
      createObjectURL_file P f <> "" ->
      let st' := fst (Minimal.handleFiles P st (Some (f :: rest))) in
      resizeDisabled st' = true
      /\ MinimalGlue.resizeLabel st' = "Resize & Download"
      /\ error st' = "Failed to load image. Try another file.").
Proof.
  split.
  - unfold MinimalGlue.resizeLabel.
    destruct (busy st), (previewURL st); split; intro H;
      try discriminate; try (split; reflexivity); try reflexivity;
      destruct H; discriminate.
  - intros Ht Hd Hb Hbusy Hurl st'. subst st'.
    rewrite (Minimal_handleFiles_accept P st f rest Ht). cbn zeta. rewrite Hd.
    unfold resizeDisabled, MinimalGlue.resizeLabel. cbn. rewrite Hb, Hbusy.
    destruct (createObjectURL_file P f); [contradiction|].
    repeat split.
Qed.

(** X20 (witness): [photo.jpg] on a browser whose decoders fail. *)
Lemma button_after_failed_decode_witness :
  let st' := fst (Minimal.handleFiles (Sample.browser None None) Sample.initial
                    (Some [Sample.photo])) in
  resizeDisabled st' = true /\ MinimalGlue.resizeLabel st' = "Resize & Download".
Proof.
  intro st'.
  assert (Hurl : createObjectURL_file (Sample.browser None None) Sample.photo <> "")
    by discriminate.
  destruct (proj2 (button_after_failed_decode (Sample.browser None None)
                     Sample.initial Sample.photo [])
              eq_refl eq_refl eq_refl eq_refl Hurl) as (Hd & Hl & _).
  split; [exact Hd | exact Hl].
Defined.
